(** * The Chromecast control channel of VLC: [chromecast_communication.cpp]

    A shallow embedding of [ChromecastCommunication]: the framing of
    [sendMessage], the read loop of [receive], the two request-id counters,
    the builders of the JSON payloads, and the construction and the teardown
    of the object, with the properties of the specification and further
    properties of the code stated and proved over them.

    Conventions.  C integers are [Z] with their wrap-around written out;
    buffers are [list byte]; [std::string] is [string]; a
    [std::stringstream] is the list of the insertions made into it; the
    object's mutable state and the behaviour of the TLS session are threaded
    explicitly through a small state-and-abort monad. *)

From Stdlib Require Import ZArith List String Ascii Bool Lia Floats DecimalString.
From Stdlib.Strings Require Import Byte.
Import ListNotations.

Local Open Scope Z_scope.

(* ================================================================== *)
(** * Machine integers and bytes *)
(* ================================================================== *)

Definition INT_MAX : Z := 2147483647.

(** Conversion to [unsigned] / [uint32_t]: reduction modulo [2^32]. *)
Definition to_uint32 (z : Z) : Z := z mod 2 ^ 32.

(** Conversion to a 32-bit [int]. *)
Definition to_int32 (z : Z) : Z := (z + 2 ^ 31) mod 2 ^ 32 - 2 ^ 31.

Definition byte_of_Z (z : Z) : byte :=
  match Byte.of_N (Z.to_N (z mod 256)) with
  | Some b => b
  | None => x00
  end.

Definition Z_of_byte (b : byte) : Z := Z.of_N (Byte.to_N b).

(** Modelled from the spec: [SetDWBE (p, dw)] is defined in [vlc_common.h],
    which is not among the sources; it stores the [uint32_t] [dw] at [p] as
    4 bytes big-endian. *)
Definition SetDWBE (dw : Z) : list byte :=
  let dw := to_uint32 dw in
  [ byte_of_Z (Z.land (Z.shiftr dw 24) 255);
    byte_of_Z (Z.land (Z.shiftr dw 16) 255);
    byte_of_Z (Z.land (Z.shiftr dw 8) 255);
    byte_of_Z (Z.land dw 255) ].

(** Modelled from the spec: [GetDWBE (p)], of the same header, the pure
    parse of the prefix: the [uint32_t] stored big-endian in the first four
    bytes at [p]. *)
Definition GetDWBE (p : list byte) : option Z :=
  match p with
  | b3 :: b2 :: b1 :: b0 :: _ =>
      Some (Z.lor (Z.shiftl (Z_of_byte b3) 24)
           (Z.lor (Z.shiftl (Z_of_byte b2) 16)
           (Z.lor (Z.shiftl (Z_of_byte b1) 8) (Z_of_byte b0))))
  | _ => None
  end.

Definition blen (bs : list byte) : Z := Z.of_nat (List.length bs).

(* ================================================================== *)
(** * The protobuf wire format *)
(* ================================================================== *)

Module Wire.

(** Base-128 varint, least significant group first; a 64-bit value takes
    at most ten bytes. *)
Fixpoint varint_fuel (fuel : nat) (n : Z) : list byte :=
  match fuel with
  | O => []
  | S fuel' =>
      if n <? 128 then [byte_of_Z n]
      else byte_of_Z (Z.lor (Z.land n 127) 128)
             :: varint_fuel fuel' (Z.shiftr n 7)
  end.

Definition varint (n : Z) : list byte := varint_fuel 10 n.

(** [CodedOutputStream::VarintSize]: the number of bytes of [varint n],
    computed from the magnitude of [n]. *)
Fixpoint VarintSize_fuel (fuel : nat) (n : Z) : Z :=
  match fuel with
  | O => 0
  | S fuel' =>
      if n <? 128 then 1 else 1 + VarintSize_fuel fuel' (Z.shiftr n 7)
  end.

Definition VarintSize (n : Z) : Z := VarintSize_fuel 10 n.

(** Reading a varint back: the value and the rest of the input. *)
Fixpoint read_varint_fuel (fuel : nat) (bs : list byte) : option (Z * list byte) :=
  match fuel, bs with
  | S fuel', b :: rest =>
      let v := Z_of_byte b in
      if v <? 128 then Some (v, rest)
      else
        match read_varint_fuel fuel' rest with
        | Some (hi, rest') => Some (Z.lor (Z.land v 127) (Z.shiftl hi 7), rest')
        | None => None
        end
  | _, _ => None
  end.

Definition read_varint (bs : list byte) : option (Z * list byte) :=
  read_varint_fuel 10 bs.

(** Wire types. *)
Definition WT_VARINT : Z := 0.
Definition WT_FIXED64 : Z := 1.
Definition WT_LEN : Z := 2.
Definition WT_FIXED32 : Z := 5.

Definition tag (field wire_type : Z) : list byte :=
  varint (Z.lor (Z.shiftl field 3) wire_type).

(** A varint field and a length-delimited field. *)
Definition put_varint (field n : Z) : list byte :=
  tag field WT_VARINT ++ varint n.

Definition put_bytes (field : Z) (body : list byte) : list byte :=
  tag field WT_LEN ++ varint (blen body) ++ body.

(** The first [n] bytes and what follows them, when that many are there. *)
Definition take (n : Z) (bs : list byte) : option (list byte * list byte) :=
  if (0 <=? n) && (n <=? blen bs)
  then Some (firstn (Z.to_nat n) bs, skipn (Z.to_nat n) bs)
  else None.

End Wire.

(* ================================================================== *)
(** * [castchannel::CastMessage] *)
(* ================================================================== *)

Module castchannel.

Import Wire.

Inductive CastMessage_ProtocolVersion : Set :=
| CastMessage_ProtocolVersion_CASTV2_1_0.

Inductive CastMessage_PayloadType : Set :=
| CastMessage_PayloadType_STRING
| CastMessage_PayloadType_BINARY.

(** Modelled from the spec: the class [castchannel::CastMessage] is
    generated from [cast_channel.proto], which is not among the sources.
    The record holds the fields of the envelope body (protocol version,
    namespace, source and destination identifiers, payload type, and a
    payload that is a string or bytes); the five leading fields are
    required, each payload field is optional and [None] stands for a field
    that was never set. *)
Record CastMessage : Set := mkCastMessage {
  protocol_version : CastMessage_ProtocolVersion;
  source_id : string;
  destination_id : string;
  namespace_ : string;
  payload_type : CastMessage_PayloadType;
  payload_utf8 : option string;
  payload_binary : option string
}.

Definition ProtocolVersion_value (v : CastMessage_ProtocolVersion) : Z :=
  match v with CastMessage_ProtocolVersion_CASTV2_1_0 => 0 end.

Definition PayloadType_value (t : CastMessage_PayloadType) : Z :=
  match t with
  | CastMessage_PayloadType_STRING => 0
  | CastMessage_PayloadType_BINARY => 1
  end.

Definition PayloadType_eqb (a b : CastMessage_PayloadType) : bool :=
  PayloadType_value a =? PayloadType_value b.

(** [std::string::size]. *)
Definition size (s : string) : Z := Z.of_nat (String.length s).

Definition StringSize (s : string) : Z := VarintSize (size s) + size s.

Definition opt_size (o : option string) : Z :=
  match o with
  | Some s => 1 + StringSize s
  | None => 0
  end.

(** Modelled from the spec: [CastMessage::ByteSize], generated code that is
    not among the sources; the byte-length of the serialized envelope, as
    protobuf computes it: one tag byte per field that is set, plus the size
    of its value. *)
Definition ByteSize (m : CastMessage) : Z :=
  (1 + VarintSize (ProtocolVersion_value (protocol_version m)))
  + (1 + StringSize (source_id m))
  + (1 + StringSize (destination_id m))
  + (1 + StringSize (namespace_ m))
  + (1 + VarintSize (PayloadType_value (payload_type m)))
  + opt_size (payload_utf8 m)
  + opt_size (payload_binary m).

Definition put_string (field : Z) (s : string) : list byte :=
  put_bytes field (list_byte_of_string s).

Definition put_opt (field : Z) (o : option string) : list byte :=
  match o with
  | Some s => put_string field s
  | None => []
  end.

(** Modelled from the spec: [CastMessage::SerializeWithCachedSizesToArray],
    generated code that is not among the sources; the serialized envelope
    body, every field that is set in the order of its field number. *)
Definition Serialize (m : CastMessage) : list byte :=
  put_varint 1 (ProtocolVersion_value (protocol_version m))
  ++ put_string 2 (source_id m)
  ++ put_string 3 (destination_id m)
  ++ put_string 4 (namespace_ m)
  ++ put_varint 5 (PayloadType_value (payload_type m))
  ++ put_opt 6 (payload_utf8 m)
  ++ put_opt 7 (payload_binary m).

(** What a parse has seen so far. *)
Record partial : Set := mkPartial {
  p_version : option CastMessage_ProtocolVersion;
  p_source : option string;
  p_destination : option string;
  p_namespace : option string;
  p_type : option CastMessage_PayloadType;
  p_utf8 : option string;
  p_binary : option string
}.

Definition p_empty : partial :=
  mkPartial None None None None None None None.

Definition set_varint (field v : Z) (p : partial) : partial :=
  if field =? 1 then
    if v =? 0
    then mkPartial (Some CastMessage_ProtocolVersion_CASTV2_1_0) (p_source p)
           (p_destination p) (p_namespace p) (p_type p) (p_utf8 p) (p_binary p)
    else p
  else if field =? 5 then
    if v =? 0
    then mkPartial (p_version p) (p_source p) (p_destination p) (p_namespace p)
           (Some CastMessage_PayloadType_STRING) (p_utf8 p) (p_binary p)
    else if v =? 1
    then mkPartial (p_version p) (p_source p) (p_destination p) (p_namespace p)
           (Some CastMessage_PayloadType_BINARY) (p_utf8 p) (p_binary p)
    else p
  else p.

Definition set_bytes (field : Z) (body : list byte) (p : partial) : partial :=
  let s := string_of_list_byte body in
  if field =? 2 then
    mkPartial (p_version p) (Some s) (p_destination p) (p_namespace p)
      (p_type p) (p_utf8 p) (p_binary p)
  else if field =? 3 then
    mkPartial (p_version p) (p_source p) (Some s) (p_namespace p)
      (p_type p) (p_utf8 p) (p_binary p)
  else if field =? 4 then
    mkPartial (p_version p) (p_source p) (p_destination p) (Some s)
      (p_type p) (p_utf8 p) (p_binary p)
  else if field =? 6 then
    mkPartial (p_version p) (p_source p) (p_destination p) (p_namespace p)
      (p_type p) (Some s) (p_binary p)
  else if field =? 7 then
    mkPartial (p_version p) (p_source p) (p_destination p) (p_namespace p)
      (p_type p) (p_utf8 p) (Some s)
  else p.

(** One field after the other until the input ends; a field that the
    message does not know is skipped by its wire type. *)
Fixpoint parse_fields (fuel : nat) (bs : list byte) (acc : partial)
  : option partial :=
  match bs, fuel with
  | [], _ => Some acc
  | _, O => None
  | _, S fuel' =>
      match read_varint bs with
      | None => None
      | Some (t, rest) =>
          let field := Z.shiftr t 3 in
          let wt := Z.land t 7 in
          if field =? 0 then None
          else if wt =? WT_VARINT then
            match read_varint rest with
            | Some (v, rest') => parse_fields fuel' rest' (set_varint field v acc)
            | None => None
            end
          else if wt =? WT_LEN then
            match read_varint rest with
            | Some (l, rest') =>
                match take l rest' with
                | Some (body, rest'') =>
                    parse_fields fuel' rest'' (set_bytes field body acc)
                | None => None
                end
            | None => None
            end
          else if wt =? WT_FIXED64 then
            match take 8 rest with
            | Some (_, rest') => parse_fields fuel' rest' acc
            | None => None
            end
          else if wt =? WT_FIXED32 then
            match take 4 rest with
            | Some (_, rest') => parse_fields fuel' rest' acc
            | None => None
            end
          else None
      end
  end.

(** A parse succeeds when every required field was seen. *)
Definition complete (p : partial) : option CastMessage :=
  match p_version p, p_source p, p_destination p, p_namespace p, p_type p with
  | Some v, Some s, Some d, Some n, Some t =>
      Some (mkCastMessage v s d n t (p_utf8 p) (p_binary p))
  | _, _, _, _, _ => None
  end.

(** Modelled from the spec: [CastMessage::ParseFromArray], generated code
    that is not among the sources; deserialization of an envelope body. *)
Definition ParseFromArray (bs : list byte) : option CastMessage :=
  match parse_fields (S (List.length bs)) bs p_empty with
  | Some p => complete p
  | None => None
  end.

End castchannel.

Import castchannel.

(* ================================================================== *)
(** * Constants of the headers *)
(* ================================================================== *)

(** Modelled from the spec: the constants below are defined in
    [chromecast.h] and [vlc_common.h], which are not among the sources: the
    4-byte length prefix, the well-known receiver, the five namespaces, the
    application launched on the receiver, and VLC's return codes. *)
Definition PACKET_HEADER_LEN : Z := 4.

Definition DEFAULT_CHOMECAST_RECEIVER : string := "receiver-0".
Definition NAMESPACE_MEDIA : string := "urn:x-cast:com.google.cast.media".
Definition NAMESPACE_DEVICEAUTH : string := "urn:x-cast:com.google.cast.tp.deviceauth".
Definition NAMESPACE_CONNECTION : string := "urn:x-cast:com.google.cast.tp.connection".
Definition NAMESPACE_HEARTBEAT : string := "urn:x-cast:com.google.cast.tp.heartbeat".
Definition NAMESPACE_RECEIVER : string := "urn:x-cast:com.google.cast.receiver".
Definition APP_ID : string := "CC1AD845".

Definition VLC_SUCCESS : Z := 0.
Definition VLC_EGENERIC : Z := -1.
Definition VLC_ENOMEM : Z := -2.

Definition EAGAIN : Z := 11.
Definition POLLIN : Z := 1.

(* ================================================================== *)
(** * C strings and string streams *)
(* ================================================================== *)

Definition uchar (c : ascii) : Z := Z.of_N (N_of_ascii c).

Definition head_char (s : string) : Z :=
  match s with
  | EmptyString => 0
  | String c _ => uchar c
  end.

Definition tail (s : string) : string :=
  match s with
  | EmptyString => EmptyString
  | String _ s' => s'
  end.

(** [strncmp (s1, s2, n)]: the difference of the first characters that
    differ among the first [n], a string ending at its terminating zero. *)
Fixpoint strncmp (s1 s2 : string) (n : nat) : Z :=
  match n with
  | O => 0
  | S n' =>
      let c1 := head_char s1 in
      let c2 := head_char s2 in
      if c1 =? c2
      then if c1 =? 0 then 0 else strncmp (tail s1) (tail s2) n'
      else c1 - c2
  end.

(** The double quote, and a string between double quotes as it is written
    inside a C literal. *)
Definition dq : string := String (ascii_of_nat 34) EmptyString.

Definition quoted (s : string) : string := (dq ++ s ++ dq)%string.

(** What is inserted into a [std::stringstream] with [<<]. *)
Inductive insertion : Set :=
| Lit (s : string)        (* a string literal of the program text *)
| Str (s : string)        (* the value of a [std::string] or of a [const char*] *)
| Unsigned (n : Z)        (* an [unsigned], in decimal *)
| Int64 (n : Z)           (* an [int64_t], in decimal *)
| Float (f : float).      (* a [float] *)

Definition stringstream : Set := list insertion.

Definition print_unsigned (n : Z) : string :=
  NilEmpty.string_of_uint (N.to_uint (Z.to_N n)).

Definition print_int64 (n : Z) : string :=
  NilZero.string_of_int (Z.to_int n).

(* ================================================================== *)
(** * The TLS session and the state of the object *)
(* ================================================================== *)

(** Modelled from the spec: the session ([vlc_tls_t], with its [readv],
    [vlc_tls_Write] and [vlc_poll_i11e]) is the transport of VLC's core,
    which is not among the sources.  A read finds data, would block, fails
    or finds the stream closed; a write reports how many bytes went through,
    or an error.  What the peer and the network do is given in advance, as
    scripts. *)

(** What one turn of the read loop finds on the session. *)
Inductive readv_event : Set :=
| Readv_data (bs : list byte)
    (* bytes are there: [readv] stores as many as the buffer takes, the
       others stay queued; no byte at all is the orderly close *)
| Readv_fail (errno val revents : Z).
    (* [readv] fails with [errno]; should [vlc_poll_i11e] be called next,
       it returns [val] and leaves [revents] in the poll descriptor *)

(** What the session does with one [vlc_tls_Write]. *)
Inductive write_event : Set :=
| Write_some (n : nat)    (* at most [n] bytes go through *)
| Write_error.            (* nothing goes through: the call returns -1 *)

Record vlc_tls_t : Set := mk_tls {
  tls_written : list (list byte * Z);
    (* every [vlc_tls_Write] so far: the buffer handed over and the value
       returned, oldest first *)
  tls_write_script : list write_event;
    (* the outcome of the coming writes, in order; none left: all goes
       through *)
  tls_read_script : list readv_event
    (* what the coming turns of the read loop find; none left: nothing
       arrives and the poll runs into its deadline *)
}.

(** Modelled from the spec: the class is declared in [chromecast.h], which
    is not among the sources.  The fields are those the functions use, the
    two request ids being [unsigned]; [heap_script] and [sent] are no fields
    of the class: the one is the outcome of the allocations to come, the
    other the history of [sendMessage]. *)
Record ChromecastCommunication : Set := mkChromecast {
  m_tls : vlc_tls_t;
  m_receiver_requestId : Z;
  m_requestId : Z;
  m_serverIp : string;
  heap_script : list bool;
    (* whether the coming [new (std::nothrow)] succeed, in order; none
       left: they do *)
  sent : list CastMessage
    (* the messages handed to [sendMessage], oldest first *)
}.

(** The bytes that went through the session, in order. *)
Definition wire (t : vlc_tls_t) : list byte :=
  flat_map (fun w => firstn (Z.to_nat (snd w)) (fst w)) (tls_written t).

(** The state the constructor leaves: both counters at zero. *)
Definition constructed (tls : vlc_tls_t) (localIP : string) (heap : list bool)
  : ChromecastCommunication :=
  mkChromecast tls 0 0 localIP heap [].

Definition fresh_tls : vlc_tls_t := mk_tls [] [] [].

(** Computations on the object: they return or stop at a failed assertion,
    and leave a state either way. *)
Inductive result (A : Type) : Type :=
| Done (a : A)
| Aborted.

Arguments Done {A} a.
Arguments Aborted {A}.

Definition M (A : Type) : Type :=
  ChromecastCommunication -> result A * ChromecastCommunication.

Definition ret {A : Type} (a : A) : M A := fun s => (Done a, s).

Definition bind {A B : Type} (m : M A) (k : A -> M B) : M B :=
  fun s =>
    match m s with
    | (Done a, s') => k a s'
    | (Aborted, s') => (Aborted, s')
    end.

Notation "x <- m ;; k" := (bind m (fun x => k))
  (at level 61, m at next level, right associativity).
Notation "m ;;; k" := (bind m (fun _ => k))
  (at level 61, right associativity).

Definition get : M ChromecastCommunication := fun s => (Done s, s).

Definition set_tls (t : vlc_tls_t) (s : ChromecastCommunication)
  : ChromecastCommunication :=
  mkChromecast t (m_receiver_requestId s) (m_requestId s) (m_serverIp s)
    (heap_script s) (sent s).

Definition set_receiver_requestId (n : Z) (s : ChromecastCommunication)
  : ChromecastCommunication :=
  mkChromecast (m_tls s) n (m_requestId s) (m_serverIp s) (heap_script s) (sent s).

Definition set_requestId (n : Z) (s : ChromecastCommunication)
  : ChromecastCommunication :=
  mkChromecast (m_tls s) (m_receiver_requestId s) n (m_serverIp s) (heap_script s) (sent s).

Definition set_heap (h : list bool) (s : ChromecastCommunication)
  : ChromecastCommunication :=
  mkChromecast (m_tls s) (m_receiver_requestId s) (m_requestId s) (m_serverIp s) h (sent s).

Definition set_sent (l : list CastMessage) (s : ChromecastCommunication)
  : ChromecastCommunication :=
  mkChromecast (m_tls s) (m_receiver_requestId s) (m_requestId s) (m_serverIp s)
    (heap_script s) l.

(** [m_receiver_requestId++] and [m_requestId++] on an [unsigned]: the old
    value is the value of the expression. *)
Definition next_receiver_requestId : M Z :=
  fun s =>
    (Done (m_receiver_requestId s),
     set_receiver_requestId (to_uint32 (m_receiver_requestId s + 1)) s).

Definition next_requestId : M Z :=
  fun s => (Done (m_requestId s), set_requestId (to_uint32 (m_requestId s + 1)) s).

(** [new (std::nothrow) uint8_t[n]]: [true] when the buffer was obtained. *)
Definition new_nothrow (n : Z) : M bool :=
  fun s =>
    match heap_script s with
    | [] => (Done true, s)
    | ok :: h => (Done ok, set_heap h s)
    end.

(** [vlc_tls_Write (m_tls, buf, len)]: the number of bytes that went
    through, or -1. *)
Definition write_result (script : list write_event) (data : list byte) : Z :=
  match script with
  | [] => blen data
  | Write_some n :: _ => Z.min (Z.of_nat n) (blen data)
  | Write_error :: _ => -1
  end.

Definition vlc_tls_Write (buf : list byte) (len : Z) : M Z :=
  fun s =>
    let t := m_tls s in
    let data := firstn (Z.to_nat len) buf in
    let r := write_result (tls_write_script t) data in
    (Done r,
     set_tls (mk_tls (tls_written t ++ [(data, r)])
                (List.tl (tls_write_script t)) (tls_read_script t)) s).

(** The record of a call of [sendMessage]. *)
Definition note (msg : CastMessage) : M unit :=
  fun s => (Done tt, set_sent (sent s ++ [msg]) s).

Section Client.

(** Whether the file is compiled with [NDEBUG], which turns [assert] into
    nothing. *)
Variable NDEBUG : bool.

(** [operator<<] on a [float], in the stream's default format. *)
Variable print_float : float -> string.

Definition assert_ (b : bool) : M unit :=
  fun s => if NDEBUG || b then (Done tt, s) else (Aborted, s).

Definition print (i : insertion) : string :=
  match i with
  | Lit s => s
  | Str s => s
  | Unsigned n => print_unsigned n
  | Int64 n => print_int64 n
  | Float f => print_float f
  end.

(** [ss.str ()]. *)
Definition str (ss : stringstream) : string :=
  List.fold_right (fun i rest => (print i ++ rest)%string) EmptyString ss.

(** ** Sending *)

(** [i_size] and the sums [PACKET_HEADER_LEN + i_size] are of type [int]:
    their wrap-around is written out. *)
Definition sendMessage (msg : CastMessage) : M Z :=
  note msg ;;;
  let i_size := to_int32 (ByteSize msg) in
  p_data <- new_nothrow (to_int32 (PACKET_HEADER_LEN + i_size)) ;;
  if negb p_data then ret VLC_ENOMEM
  else
    let buf := SetDWBE i_size ++ Serialize msg in
    written <- vlc_tls_Write buf (to_int32 (PACKET_HEADER_LEN + i_size)) ;;
    let i_ret := to_int32 written in
    if i_ret =? to_int32 (PACKET_HEADER_LEN + i_size)
    then ret VLC_SUCCESS
    else ret VLC_EGENERIC.

Definition buildMessage (namespace_ payload destinationId : string)
    (payloadType : CastMessage_PayloadType) : M unit :=
  let msg :=
    if PayloadType_eqb payloadType CastMessage_PayloadType_STRING
    then mkCastMessage CastMessage_ProtocolVersion_CASTV2_1_0 "sender-vlc"
           destinationId namespace_ payloadType (Some payload) None
    else mkCastMessage CastMessage_ProtocolVersion_CASTV2_1_0 "sender-vlc"
           destinationId namespace_ payloadType None (Some payload) in
  sendMessage msg ;;; ret tt.

Definition pushMediaPlayerMessage (destinationId : string) (payload : stringstream)
  : M unit :=
  assert_ (negb (String.eqb destinationId "")) ;;;
  buildMessage NAMESPACE_MEDIA (str payload) destinationId
    CastMessage_PayloadType_STRING.

(** ** Receiving *)

Definition requeue (left : list byte) (evs : list readv_event) : list readv_event :=
  match left with
  | [] => evs
  | _ :: _ => Readv_data left :: evs
  end.

(** The loop of [receive]: [i_size] bytes are still wanted, [i_received]
    are in [p_data]; the result is the value returned, [*pb_timeout] and
    the contents of the buffer.  A [continue] of the [do ... while] goes to
    the test [i_size > 0].  The loop goes round after a read only when the
    read took all the bytes that were there, so nothing is queued again
    then. *)
Fixpoint receive_loop (evs : list readv_event) (i_size i_received : Z)
    (p_data : list byte) (pb_timeout : bool)
  : result (Z * bool * list byte) * list readv_event :=
  match evs with
  | [] => (Done (i_received, true, p_data), [])
  | Readv_data bs :: evs' =>
      let got := firstn (Z.to_nat i_size) bs in
      let evs'' := requeue (skipn (Z.to_nat i_size) bs) evs' in
      let i_ret := blen got in
      if i_ret =? 0 then (Done (-1, pb_timeout, p_data), evs'')
      else if negb (NDEBUG || (i_ret <=? i_size)) then (Aborted, evs'')
      else
        let i_size := i_size - i_ret in
        let i_received := i_received + i_ret in
        if 0 <? i_size
        then receive_loop evs' i_size i_received (p_data ++ got) pb_timeout
        else (Done (i_received, pb_timeout, p_data ++ got), evs'')
  | Readv_fail errno val revents :: evs' =>
      if negb (errno =? EAGAIN) then (Done (-1, pb_timeout, p_data), evs')
      else if val <? 0 then (Done (-1, pb_timeout, p_data), evs')
      else if val =? 0 then (Done (i_received, true, p_data), evs')
      else if negb (NDEBUG || negb (Z.land revents POLLIN =? 0))
      then (Aborted, evs')
      else if 0 <? i_size
      then receive_loop evs' i_size i_received p_data pb_timeout
      else (Done (i_received, pb_timeout, p_data), evs')
  end.

(** [receive (p_data, i_size, i_timeout, pb_timeout)]; how long the poll
    waits is the session's affair, its outcome comes with the events. *)
Definition receive (i_size i_timeout : Z) (pb_timeout : bool)
  : M (Z * bool * list byte) :=
  fun s =>
    let t := m_tls s in
    let (r, evs) := receive_loop (tls_read_script t) i_size 0 [] pb_timeout in
    (r, set_tls (mk_tls (tls_written t) (tls_write_script t) evs) s).

(** ** Message preparation *)

(** Modelled from the spec: [castchannel::DeviceAuthMessage] is generated
    code that is not among the sources; a message whose only field is an
    empty challenge serializes to a length-delimited field 1 of length 0. *)
Definition authMessage_SerializeAsString : string :=
  String (ascii_of_nat 10) (String (ascii_of_nat 0) EmptyString).

Definition msgAuth : M unit :=
  buildMessage NAMESPACE_DEVICEAUTH authMessage_SerializeAsString
    DEFAULT_CHOMECAST_RECEIVER CastMessage_PayloadType_BINARY.

Definition msgPing : M unit :=
  let s := ("{" ++ quoted "type" ++ ":" ++ quoted "PING" ++ "}")%string in
  buildMessage NAMESPACE_HEARTBEAT s DEFAULT_CHOMECAST_RECEIVER
    CastMessage_PayloadType_STRING.

Definition msgPong : M unit :=
  let s := ("{" ++ quoted "type" ++ ":" ++ quoted "PONG" ++ "}")%string in
  buildMessage NAMESPACE_HEARTBEAT s DEFAULT_CHOMECAST_RECEIVER
    CastMessage_PayloadType_STRING.

Definition msgConnect (destinationId : string) : M unit :=
  let s := ("{" ++ quoted "type" ++ ":" ++ quoted "CONNECT" ++ "}")%string in
  buildMessage NAMESPACE_CONNECTION s destinationId CastMessage_PayloadType_STRING.

Definition msgReceiverClose (destinationId : string) : M unit :=
  let s := ("{" ++ quoted "type" ++ ":" ++ quoted "CLOSE" ++ "}")%string in
  buildMessage NAMESPACE_CONNECTION s destinationId CastMessage_PayloadType_STRING.

Definition msgReceiverGetStatus : M unit :=
  id <- next_receiver_requestId ;;
  let ss :=
    [ Lit ("{" ++ quoted "type" ++ ":" ++ quoted "GET_STATUS" ++ ",");
      Lit (quoted "requestId" ++ ":"); Unsigned id; Lit "}" ] in
  buildMessage NAMESPACE_RECEIVER (str ss) DEFAULT_CHOMECAST_RECEIVER
    CastMessage_PayloadType_STRING.

Definition msgReceiverLaunchApp : M unit :=
  id <- next_receiver_requestId ;;
  let ss :=
    [ Lit ("{" ++ quoted "type" ++ ":" ++ quoted "LAUNCH" ++ ",");
      Lit (quoted "appId" ++ ":" ++ dq); Lit APP_ID; Lit (dq ++ ",");
      Lit (quoted "requestId" ++ ":"); Unsigned id; Lit "}" ] in
  buildMessage NAMESPACE_RECEIVER (str ss) DEFAULT_CHOMECAST_RECEIVER
    CastMessage_PayloadType_STRING.

Definition msgPlayerGetStatus (destinationId : string) : M unit :=
  id <- next_requestId ;;
  let ss :=
    [ Lit ("{" ++ quoted "type" ++ ":" ++ quoted "GET_STATUS" ++ ",");
      Lit (quoted "requestId" ++ ":"); Unsigned id;
      Lit "}" ] in
  pushMediaPlayerMessage destinationId ss.

(** ** The media descriptor of LOAD *)

Inductive vlc_meta_type_t : Set :=
| vlc_meta_Title | vlc_meta_Artist | vlc_meta_Album | vlc_meta_AlbumArtist
| vlc_meta_TrackNumber | vlc_meta_DiscNumber | vlc_meta_ArtworkURL
| vlc_meta_NowPlaying | vlc_meta_ESNowPlaying.

(** Modelled from the spec: [vlc_meta_t] and [vlc_meta_Get] are VLC's
    core, which is not among the sources; a lookup of optional strings: the
    string of an entry, [None] for the null pointer of an entry that is not
    set. *)
Definition vlc_meta_t : Set := vlc_meta_type_t -> option string.

Definition vlc_meta_Get (p_meta : vlc_meta_t) (t : vlc_meta_type_t) : option string :=
  p_meta t.

Definition is_set (p : option string) : bool :=
  match p with Some _ => true | None => false end.

(** [if (p) ss << before << p << after]. *)
Definition put_if (p : option string) (before after : string) : stringstream :=
  match p with
  | Some v => [Lit before; Str v; Lit after]
  | None => []
  end.

Definition GetMedia_metadata (mime : string) (p_meta : option vlc_meta_t)
  : stringstream :=
  let b_music := strncmp mime "audio" (String.length "audio") =? 0 in
  match p_meta with
  | None => []
  | Some p_meta =>
      let psz_title := vlc_meta_Get p_meta vlc_meta_Title in
      let psz_artwork := vlc_meta_Get p_meta vlc_meta_ArtworkURL in
      let fetch t :=
        if b_music && is_set psz_title then vlc_meta_Get p_meta t else None in
      let psz_artist := fetch vlc_meta_Artist in
      let psz_album := fetch vlc_meta_Album in
      let psz_albumartist := fetch vlc_meta_AlbumArtist in
      let psz_tracknumber := fetch vlc_meta_TrackNumber in
      let psz_discnumber := fetch vlc_meta_DiscNumber in
      let psz_title :=
        match psz_title with
        | Some _ => psz_title
        | None =>
            match vlc_meta_Get p_meta vlc_meta_NowPlaying with
            | Some t => Some t
            | None => vlc_meta_Get p_meta vlc_meta_ESNowPlaying
            end
        end in
      match psz_title with
      | None => []
      | Some title =>
          [ Lit (quoted "metadata" ++ ":{");
            Lit (" " ++ quoted "metadataType" ++ ":");
            Lit (if b_music then "3" else "0");
            Lit ("," ++ quoted "title" ++ ":" ++ dq); Str title; Lit dq ]
          ++ (if b_music
              then put_if psz_artist ("," ++ quoted "artist" ++ ":" ++ dq) dq
                ++ put_if psz_album ("," ++ quoted "album" ++ ":" ++ dq) dq
                ++ put_if psz_albumartist ("," ++ quoted "albumArtist" ++ ":" ++ dq) dq
                ++ put_if psz_tracknumber ("," ++ quoted "trackNumber" ++ ":" ++ dq) dq
                ++ put_if psz_discnumber ("," ++ quoted "discNumber" ++ ":" ++ dq) dq
              else [])
          ++ (match psz_artwork with
              | Some artwork =>
                  if strncmp artwork "http" 4 =? 0
                  then [ Lit ("," ++ quoted "images" ++ ":[{" ++ quoted "url" ++ ":" ++ dq);
                         Str artwork; Lit (dq ++ "}]") ]
                  else []
              | None => []
              end)
          ++ [ Lit "}," ]
      end
  end%list.

(** The stream [ss] of [GetMedia] when the function returns. *)
Definition GetMedia_ss (this : ChromecastCommunication) (i_port : Z)
    (mime : string) (p_meta : option vlc_meta_t) : stringstream :=
  let chromecast_url :=
    [ Lit "http://"; Str (m_serverIp this); Lit ":"; Unsigned i_port;
      Lit "/stream" ] in
  (GetMedia_metadata mime p_meta
   ++ [ Lit (quoted "contentId" ++ ":" ++ dq); Str (str chromecast_url); Lit dq;
        Lit ("," ++ quoted "streamType" ++ ":" ++ quoted "LIVE");
        Lit ("," ++ quoted "contentType" ++ ":" ++ dq); Str mime; Lit dq ])%list.

Definition GetMedia (this : ChromecastCommunication) (i_port : Z)
    (mime : string) (p_meta : option vlc_meta_t) : string :=
  str (GetMedia_ss this i_port mime p_meta).

(** ** The media-player commands *)

Definition msgPlayerLoad (destinationId : string) (i_port : Z) (mime : string)
    (p_meta : option vlc_meta_t) : M unit :=
  this <- get ;;
  id <- next_requestId ;;
  let ss :=
    [ Lit ("{" ++ quoted "type" ++ ":" ++ quoted "LOAD" ++ ",");
      Lit (quoted "media" ++ ":{"); Str (GetMedia this i_port mime p_meta);
      Lit "},";
      Lit (quoted "autoplay" ++ ":" ++ quoted "false" ++ ",");
      Lit (quoted "requestId" ++ ":"); Unsigned id;
      Lit "}" ] in
  pushMediaPlayerMessage destinationId ss.

Definition msgPlayerPlay (destinationId : string) (mediaSessionId : Z) : M unit :=
  assert_ (negb (mediaSessionId =? 0)) ;;;
  id <- next_requestId ;;
  let ss :=
    [ Lit ("{" ++ quoted "type" ++ ":" ++ quoted "PLAY" ++ ",");
      Lit (quoted "mediaSessionId" ++ ":"); Int64 mediaSessionId; Lit ",";
      Lit (quoted "requestId" ++ ":"); Unsigned id;
      Lit "}" ] in
  pushMediaPlayerMessage destinationId ss.

Definition msgPlayerStop (destinationId : string) (mediaSessionId : Z) : M unit :=
  assert_ (negb (mediaSessionId =? 0)) ;;;
  id <- next_requestId ;;
  let ss :=
    [ Lit ("{" ++ quoted "type" ++ ":" ++ quoted "STOP" ++ ",");
      Lit (quoted "mediaSessionId" ++ ":"); Int64 mediaSessionId; Lit ",";
      Lit (quoted "requestId" ++ ":"); Unsigned id;
      Lit "}" ] in
  pushMediaPlayerMessage destinationId ss.

Definition msgPlayerPause (destinationId : string) (mediaSessionId : Z) : M unit :=
  assert_ (negb (mediaSessionId =? 0)) ;;;
  id <- next_requestId ;;
  let ss :=
    [ Lit ("{" ++ quoted "type" ++ ":" ++ quoted "PAUSE" ++ ",");
      Lit (quoted "mediaSessionId" ++ ":"); Int64 mediaSessionId; Lit ",";
      Lit (quoted "requestId" ++ ":"); Unsigned id;
      Lit "}" ] in
  pushMediaPlayerMessage destinationId ss.

(** The test of [msgPlayerSetVolume] on its volume. *)
Definition volume_refused (f_volume : float) : bool :=
  (f_volume <? 0)%float || (1 <? f_volume)%float.

Definition msgPlayerSetVolume (destinationId : string) (mediaSessionId : Z)
    (f_volume : float) (b_mute : bool) : M unit :=
  assert_ (negb (mediaSessionId =? 0)) ;;;
  if volume_refused f_volume then ret tt
  else
    id <- next_requestId ;;
    let ss :=
      [ Lit ("{" ++ quoted "type" ++ ":" ++ quoted "SET_VOLUME" ++ ",");
        Lit (quoted "volume" ++ ":{" ++ quoted "level" ++ ":"); Float f_volume;
        Lit ("," ++ quoted "muted" ++ ":"); Lit (if b_mute then "true" else "false");
        Lit "},";
        Lit (quoted "mediaSessionId" ++ ":"); Int64 mediaSessionId; Lit ",";
        Lit (quoted "requestId" ++ ":"); Unsigned id;
        Lit "}" ] in
    pushMediaPlayerMessage destinationId ss.

Definition msgPlayerSeek (destinationId : string) (mediaSessionId : Z)
    (currentTime : string) : M unit :=
  assert_ (negb (mediaSessionId =? 0)) ;;;
  id <- next_requestId ;;
  let ss :=
    [ Lit ("{" ++ quoted "type" ++ ":" ++ quoted "SEEK" ++ ",");
      Lit (quoted "currentTime" ++ ":"); Str currentTime; Lit ",";
      Lit (quoted "mediaSessionId" ++ ":"); Int64 mediaSessionId; Lit ",";
      Lit (quoted "requestId" ++ ":"); Unsigned id;
      Lit "}" ] in
  pushMediaPlayerMessage destinationId ss.

(** ** A caller *)

(** The calls a user of the object makes. *)
Inductive command : Set :=
| Auth
| Ping
| Pong
| Connect (destinationId : string)
| ReceiverClose (destinationId : string)
| ReceiverGetStatus
| ReceiverLaunchApp
| PlayerGetStatus (destinationId : string)
| PlayerLoad (destinationId : string) (i_port : Z) (mime : string)
    (p_meta : option vlc_meta_t)
| PlayerPlay (destinationId : string) (mediaSessionId : Z)
| PlayerStop (destinationId : string) (mediaSessionId : Z)
| PlayerPause (destinationId : string) (mediaSessionId : Z)
| PlayerSetVolume (destinationId : string) (mediaSessionId : Z)
    (f_volume : float) (b_mute : bool)
| PlayerSeek (destinationId : string) (mediaSessionId : Z) (currentTime : string).

Definition call (c : command) : M unit :=
  match c with
  | Auth => msgAuth
  | Ping => msgPing
  | Pong => msgPong
  | Connect d => msgConnect d
  | ReceiverClose d => msgReceiverClose d
  | ReceiverGetStatus => msgReceiverGetStatus
  | ReceiverLaunchApp => msgReceiverLaunchApp
  | PlayerGetStatus d => msgPlayerGetStatus d
  | PlayerLoad d i_port mime p_meta => msgPlayerLoad d i_port mime p_meta
  | PlayerPlay d id => msgPlayerPlay d id
  | PlayerStop d id => msgPlayerStop d id
  | PlayerPause d id => msgPlayerPause d id
  | PlayerSetVolume d id v m => msgPlayerSetVolume d id v m
  | PlayerSeek d id t => msgPlayerSeek d id t
  end.

(** One call after the other; a failed assertion ends the run. *)
Fixpoint run (cs : list command) : M unit :=
  match cs with
  | [] => ret tt
  | c :: cs' => call c ;;; run cs'
  end.

(** The commands of the receiver scope, and those of the media-player
    scope that put a message together (a SET_VOLUME whose volume is
    refused returns before it does). *)
Definition receiver_scope (c : command) : bool :=
  match c with
  | ReceiverGetStatus | ReceiverLaunchApp => true
  | _ => false
  end.

Definition media_scope (c : command) : bool :=
  match c with
  | PlayerGetStatus _ | PlayerLoad _ _ _ _ | PlayerPlay _ _ | PlayerStop _ _
  | PlayerPause _ _ | PlayerSeek _ _ _ => true
  | PlayerSetVolume _ _ v _ => negb (volume_refused v)
  | _ => false
  end.

End Client.

(* ================================================================== *)
(** * What the properties speak of *)
(* ================================================================== *)

(** [buf] is a frame of [body]: four bytes that hold the length of [body],
    most significant byte first, and then [body]. *)
Definition frame_of (body buf : list byte) : Prop :=
  exists hdr,
    buf = hdr ++ body /\ List.length hdr = 4%nat /\ GetDWBE hdr = Some (blen body).

(** The buffer [sendMessage] fills for a message. *)
Definition frame (msg : CastMessage) : list byte :=
  SetDWBE (ByteSize msg) ++ Serialize msg.

(** The length [sendMessage] computes for the buffer, an [int], and the
    bytes of the buffer it hands to the session: that many. *)
Definition frame_len (msg : CastMessage) : Z :=
  to_int32 (PACKET_HEADER_LEN + to_int32 (ByteSize msg)).

Definition handed (msg : CastMessage) : list byte :=
  firstn (Z.to_nat (frame_len msg)) (frame msg).

(** The buffers handed to the session, oldest first. *)
Definition emitted (s : ChromecastCommunication) : list (list byte) :=
  List.map fst (tls_written (m_tls s)).

(** Whether [p] occurs in [l]. *)
Fixpoint starts_with (p l : list byte) : bool :=
  match p, l with
  | [], _ => true
  | _ :: _, [] => false
  | a :: p', b :: l' => Byte.eqb a b && starts_with p' l'
  end.

Fixpoint contains (p l : list byte) : bool :=
  starts_with p l
  || match l with
     | [] => false
     | _ :: l' => contains p l'
     end.

(** The envelope of the example: a PING of the heartbeat namespace. *)
Definition PING_payload : string :=
  ("{" ++ quoted "type" ++ ":" ++ quoted "PING" ++ "}")%string.

Definition PING_envelope : CastMessage :=
  mkCastMessage CastMessage_ProtocolVersion_CASTV2_1_0 "sender-x" "receiver-0"
    "urn:x-cast:com.google.cast.tp.heartbeat" CastMessage_PayloadType_STRING
    (Some PING_payload) None.

(** A message carries the request id [k]: its JSON text ends with the field
    [requestId] of value [k]. *)
Definition carries_requestId (m : CastMessage) (k : Z) : Prop :=
  exists before,
    payload_utf8 m
    = Some (before ++ quoted "requestId" ++ ":" ++ print_unsigned k ++ "}")%string.

Definition in_namespace (ns : string) (m : CastMessage) : bool :=
  String.eqb (namespace_ m) ns.

(** The ids [0 .. n-1]. *)
Definition first_ids (n : nat) : list Z := List.map Z.of_nat (List.seq 0 n).

Definition count {A : Type} (f : A -> bool) (l : list A) : nat :=
  List.length (List.filter f l).

(** The bytes a run of events delivers. *)
Fixpoint delivered (evs : list readv_event) : list byte :=
  match evs with
  | [] => []
  | Readv_data bs :: evs' => bs ++ delivered evs'
  | Readv_fail _ _ _ :: evs' => delivered evs'
  end.

(** Events that keep the loop of [receive] turning while [i_size] bytes
    are wanted: data that does not fill the buffer yet, or a read that would
    block followed by a poll that reports the session readable. *)
Fixpoint keeps_reading (i_size : Z) (evs : list readv_event) : Prop :=
  match evs with
  | [] => True
  | Readv_data bs :: evs' =>
      0 < blen bs < i_size /\ keeps_reading (i_size - blen bs) evs'
  | Readv_fail errno val revents :: evs' =>
      errno = EAGAIN /\ 0 < val /\ Z.land revents POLLIN <> 0 /\ 0 < i_size
      /\ keeps_reading i_size evs'
  end.

(** No NUL among the characters of a C literal. *)
Fixpoint no_nul (s : string) : Prop :=
  match s with
  | EmptyString => True
  | String c s' => uchar c <> 0 /\ no_nul s'
  end.

(** The title a LOAD shows: the title, else what is now playing, else what
    the elementary stream says is now playing. *)
Definition resolved_title (p_meta : option vlc_meta_t) : option string :=
  match p_meta with
  | None => None
  | Some m =>
      match m vlc_meta_Title, m vlc_meta_NowPlaying, m vlc_meta_ESNowPlaying with
      | Some t, _, _ => Some t
      | None, Some t, _ => Some t
      | None, None, o => o
      end
  end.

(** The stream holds the JSON field [key], a string value to follow. *)
Definition emits (key : string) (ss : stringstream) : Prop :=
  In (Lit ("," ++ quoted key ++ ":" ++ dq)) ss.

Definition emits_metadata (ss : stringstream) : Prop :=
  In (Lit (quoted "metadata" ++ ":{")) ss.

(** The fields of a music track and the entries they are read from. *)
Definition music_fields : list (string * vlc_meta_type_t) :=
  [ ("artist"%string, vlc_meta_Artist); ("album"%string, vlc_meta_Album);
    ("albumArtist"%string, vlc_meta_AlbumArtist);
    ("trackNumber"%string, vlc_meta_TrackNumber);
    ("discNumber"%string, vlc_meta_DiscNumber) ].

(** The state [sendMessage] leaves. *)
Definition after_send (msg : CastMessage) (s : ChromecastCommunication)
  : ChromecastCommunication :=
  snd (sendMessage msg s).

(** The message [buildMessage] puts together for a text payload. *)
Definition text_message (ns payload dest : string) : CastMessage :=
  mkCastMessage CastMessage_ProtocolVersion_CASTV2_1_0 "sender-vlc" dest ns
    CastMessage_PayloadType_STRING (Some payload) None.

(** The end of every payload that holds a request id. *)
Definition requestId_tail (id : Z) : stringstream :=
  [Lit (quoted "requestId" ++ ":"); Unsigned id; Lit "}"].

(** A message outside the two scopes that count their requests. *)
Definition unscoped (m : CastMessage) : Prop :=
  in_namespace NAMESPACE_RECEIVER m = false /\ in_namespace NAMESPACE_MEDIA m = false.

(** The effects of a call that returns: a call of a scope sends one message
    in the namespace of the scope, which carries the counter of the scope,
    and steps that counter alone; another call leaves both counters. *)
Definition receiver_effect (s s' : ChromecastCommunication) : Prop :=
  exists m, sent s' = sent s ++ [m]
    /\ in_namespace NAMESPACE_RECEIVER m = true
    /\ in_namespace NAMESPACE_MEDIA m = false
    /\ carries_requestId m (m_receiver_requestId s)
    /\ m_receiver_requestId s' = to_uint32 (m_receiver_requestId s + 1)
    /\ m_requestId s' = m_requestId s.

Definition media_effect (s s' : ChromecastCommunication) : Prop :=
  exists m, sent s' = sent s ++ [m]
    /\ in_namespace NAMESPACE_MEDIA m = true
    /\ in_namespace NAMESPACE_RECEIVER m = false
    /\ carries_requestId m (m_requestId s)
    /\ m_requestId s' = to_uint32 (m_requestId s + 1)
    /\ m_receiver_requestId s' = m_receiver_requestId s.

Definition unscoped_effect (s s' : ChromecastCommunication) : Prop :=
  exists new, sent s' = sent s ++ new /\ Forall unscoped new
    /\ m_receiver_requestId s' = m_receiver_requestId s
    /\ m_requestId s' = m_requestId s.

Definition call_effect (c : command) (s s' : ChromecastCommunication) : Prop :=
  if receiver_scope c then receiver_effect s s'
  else if media_scope c then media_effect s s'
  else unscoped_effect s s'.

(** The ids a counter hands out from [a] on: it wraps as an [unsigned]. *)
Fixpoint ids_from (a : Z) (n : nat) : list Z :=
  match n with
  | O => []
  | S n' => a :: ids_from (to_uint32 (a + 1)) n'
  end.

(** An entry of the metadata, [None] also when there is no metadata. *)
Definition meta_entry (p_meta : option vlc_meta_t) (t : vlc_meta_type_t)
  : option string :=
  match p_meta with
  | Some p => vlc_meta_Get p t
  | None => None
  end.

(** What a call of [receive] can come to when [i_size] bytes are asked for
    and [base] are there already: a hard error, a timeout with fewer bytes
    than asked for, or all the bytes; a failed assertion only in a build
    that has them. *)
Definition receive_outcome (NDEBUG : bool) (i_size base : Z)
    (r : result (Z * bool * list byte)) : Prop :=
  match r with
  | Done (ret, timed_out, data) =>
      (ret = -1 /\ timed_out = false)
      \/ (timed_out = true /\ ret = blen data /\ base <= ret < base + i_size)
      \/ (timed_out = false /\ ret = base + i_size /\ blen data = ret)
  | Aborted => NDEBUG = false
  end.

(** Between two states, [sendMessage] was given messages of this client
    only, and the session was handed nothing but the buffers of these. *)
Definition only_frames (s s' : ChromecastCommunication) : Prop :=
  exists new bufs,
    sent s' = sent s ++ new
    /\ emitted s' = emitted s ++ bufs
    /\ Forall (fun m => source_id m = "sender-vlc"%string) new
    /\ Forall (fun buf => exists m, In m new /\ buf = handed m) bufs.

(** ** Inputs of the examples *)

(** A client right after its construction, on a session that lets
    everything through. *)
Definition idle : ChromecastCommunication :=
  constructed fresh_tls "192.168.1.2" [].

(** A printer of volumes for the examples. *)
Definition print_sample (f : float) : string :=
  if PrimFloat.is_nan f then "nan" else "0.5".

(** Calls of both scopes, interleaved, one of them a refused volume. *)
Definition interleaved : list command :=
  [ ReceiverGetStatus; PlayerGetStatus "app"; Ping; ReceiverLaunchApp;
    PlayerPlay "app" 7; PlayerSetVolume "app" 7 2%float false;
    PlayerSetVolume "app" 7 0.5%float true; ReceiverGetStatus;
    PlayerSeek "app" 7 "12.5" ].

(** The metadata of a radio stream: no title, but what is now playing, and
    an artist. *)
Definition radio_meta : vlc_meta_t :=
  fun t =>
    match t with
    | vlc_meta_NowPlaying => Some "Radio"%string
    | vlc_meta_Artist => Some "Artist"%string
    | _ => None
    end.

(** The metadata of a track with a title and an artist. *)
Definition song_meta : vlc_meta_t :=
  fun t =>
    match t with
    | vlc_meta_Title => Some "Song"%string
    | vlc_meta_Artist => Some "Artist"%string
    | _ => None
    end.

(** A session on which two bytes arrive, then nothing within the deadline,
    and one on which the peer closes after two bytes. *)
Definition stalls : ChromecastCommunication :=
  constructed (mk_tls [] [] [Readv_data [x00; x00]; Readv_fail EAGAIN 0 0]) "192.168.1.2" [].

Definition closes : ChromecastCommunication :=
  constructed (mk_tls [] [] [Readv_data [x00; x00]; Readv_data []]) "192.168.1.2" [].

(** A session on which a frame header and more arrive at once. *)
Definition floods : ChromecastCommunication :=
  constructed (mk_tls [] [] [Readv_data [x00; x00; x00; x02; x08; x00]])
    "192.168.1.2" [].

(* ================================================================== *)
(** * What the further properties speak of *)
(* ================================================================== *)

(** ** The media descriptor *)

(** The stream holds the opening of the [images] field. *)
Definition emits_images (ss : stringstream) : Prop :=
  In (Lit ("," ++ quoted "images" ++ ":[{" ++ quoted "url" ++ ":" ++ dq)) ss.

(** The three fields every media descriptor ends with. *)
Definition stream_fields (serverIp : string) (i_port : Z) (mime : string) : string :=
  (quoted "contentId" ++ ":"
   ++ quoted ("http://" ++ serverIp ++ ":" ++ print_unsigned i_port ++ "/stream")
   ++ "," ++ quoted "streamType" ++ ":" ++ quoted "LIVE"
   ++ "," ++ quoted "contentType" ++ ":" ++ quoted mime)%string.

Definition meta_type_eqb (a b : vlc_meta_type_t) : bool :=
  match a, b with
  | vlc_meta_Title, vlc_meta_Title
  | vlc_meta_Artist, vlc_meta_Artist
  | vlc_meta_Album, vlc_meta_Album
  | vlc_meta_AlbumArtist, vlc_meta_AlbumArtist
  | vlc_meta_TrackNumber, vlc_meta_TrackNumber
  | vlc_meta_DiscNumber, vlc_meta_DiscNumber
  | vlc_meta_ArtworkURL, vlc_meta_ArtworkURL
  | vlc_meta_NowPlaying, vlc_meta_NowPlaying
  | vlc_meta_ESNowPlaying, vlc_meta_ESNowPlaying => true
  | _, _ => false
  end.

(** The metadata [m] with the entry [t] replaced. *)
Definition with_entry (m : vlc_meta_t) (t : vlc_meta_type_t) (v : option string)
  : vlc_meta_t :=
  fun t' => if meta_type_eqb t t' then v else m t'.

(** ** The messages of a run *)

(** The message [buildMessage] puts together for a binary payload. *)
Definition binary_message (ns payload dest : string) : CastMessage :=
  mkCastMessage CastMessage_ProtocolVersion_CASTV2_1_0 "sender-vlc" dest ns
    CastMessage_PayloadType_BINARY None (Some payload).

(** The messages the commands put together: the challenge of the device
    authentication, and a text for the well-known receiver or for the
    destination of the caller. *)
Definition built_by_client (NDEBUG : bool) (m : CastMessage) : Prop :=
  m = binary_message NAMESPACE_DEVICEAUTH authMessage_SerializeAsString
        DEFAULT_CHOMECAST_RECEIVER
  \/ (exists payload,
        m = text_message NAMESPACE_HEARTBEAT payload DEFAULT_CHOMECAST_RECEIVER)
  \/ (exists payload,
        m = text_message NAMESPACE_RECEIVER payload DEFAULT_CHOMECAST_RECEIVER)
  \/ (exists payload dest, m = text_message NAMESPACE_CONNECTION payload dest)
  \/ (exists payload dest,
        m = text_message NAMESPACE_MEDIA payload dest
        /\ (NDEBUG = false -> dest <> ""%string)).

(** Two states with the same session, the same allocations to come and the
    same messages sent: they differ by the counters at most. *)
Definition same_session (s s1 : ChromecastCommunication) : Prop :=
  m_tls s1 = m_tls s /\ heap_script s1 = heap_script s /\ sent s1 = sent s.

(** What a call comes to: it stops at an assertion before anything is
    sent, it returns without a message (the refused volume), or it hands one
    message to [sendMessage] and returns. *)
Definition call_shape (NDEBUG : bool) (s : ChromecastCommunication)
    (r : result unit * ChromecastCommunication) : Prop :=
  (NDEBUG = false /\ fst r = Aborted /\ same_session s (snd r))
  \/ r = (Done tt, s)
  \/ exists m s1,
       r = (Done tt, after_send m s1) /\ built_by_client NDEBUG m
       /\ same_session s s1.

(** An envelope as the receiver expects it: the fixed protocol version, one
    of the five namespaces, a binary payload for the device authentication
    and a text for everything else, the payload in the field of its kind and
    the other field not set, and the well-known receiver as the destination
    of what is not addressed to an application. *)
Definition well_formed (m : CastMessage) : Prop :=
  protocol_version m = CastMessage_ProtocolVersion_CASTV2_1_0
  /\ In (namespace_ m)
       [ NAMESPACE_DEVICEAUTH; NAMESPACE_HEARTBEAT; NAMESPACE_CONNECTION;
         NAMESPACE_RECEIVER; NAMESPACE_MEDIA ]
  /\ (if String.eqb (namespace_ m) NAMESPACE_DEVICEAUTH
      then payload_type m = CastMessage_PayloadType_BINARY
           /\ payload_utf8 m = None /\ payload_binary m <> None
      else payload_type m = CastMessage_PayloadType_STRING
           /\ payload_utf8 m <> None /\ payload_binary m = None)
  /\ (In (namespace_ m)
        [ NAMESPACE_DEVICEAUTH; NAMESPACE_HEARTBEAT; NAMESPACE_RECEIVER ] ->
      destination_id m = DEFAULT_CHOMECAST_RECEIVER).

(** The media session a command names, and the destination of a command of
    the media-player scope. *)
Definition mediaSessionId_of (c : command) : option Z :=
  match c with
  | PlayerPlay _ id | PlayerStop _ id | PlayerPause _ id
  | PlayerSetVolume _ id _ _ | PlayerSeek _ id _ => Some id
  | _ => None
  end.

Definition media_destination (c : command) : option string :=
  match c with
  | PlayerGetStatus d | PlayerLoad d _ _ _ | PlayerPlay d _ | PlayerStop d _
  | PlayerPause d _ | PlayerSetVolume d _ _ _ | PlayerSeek d _ _ => Some d
  | _ => None
  end.

(** The calls that break a precondition: a media session 0, or a message
    for the media player with no destination. *)
Definition misused (c : command) : bool :=
  match mediaSessionId_of c with
  | Some id => id =? 0
  | None => false
  end
  || (media_scope c
      && match media_destination c with
         | Some d => String.eqb d ""
         | None => false
         end).

(** The commands of the media-player scope, whether or not they come to
    send a message. *)
Definition media_player_command (c : command) : bool :=
  match c with
  | PlayerGetStatus _ | PlayerLoad _ _ _ _ | PlayerPlay _ _ | PlayerStop _ _
  | PlayerPause _ _ | PlayerSetVolume _ _ _ _ | PlayerSeek _ _ _ => true
  | _ => false
  end.

(** Three commands of the media-player scope, the second one a SET_VOLUME
    whose volume is above 1.0. *)
Definition dropped_between : list command :=
  [ PlayerGetStatus "app"; PlayerSetVolume "app" 7 2%float false;
    PlayerPlay "app" 7 ].

(** The ids [0 .. n-1] as an [unsigned] holds them. *)
Definition wrapped_ids (n : nat) : list Z :=
  List.map (fun i => to_uint32 (Z.of_nat i)) (List.seq 0 n).

(** ** Reading a stream *)

(** Events on which no read fails for good and the peer does not close:
    every read brings bytes, or would block and is followed by a poll that
    reports the session readable. *)
Fixpoint lively (evs : list readv_event) : Prop :=
  match evs with
  | [] => True
  | Readv_data bs :: evs' => bs <> [] /\ lively evs'
  | Readv_fail errno val revents :: evs' =>
      errno = EAGAIN /\ 0 < val /\ Z.land revents POLLIN <> 0 /\ lively evs'
  end.

(** What the session of a client still delivers. *)
Definition incoming (s : ChromecastCommunication) : list byte :=
  delivered (tls_read_script (m_tls s)).

(* ================================================================== *)
(** * Construction and teardown *)
(* ================================================================== *)

(** Modelled from the spec: the port of the control channel of a
    Chromecast, defined in [chromecast.h], which is not among the sources. *)
Definition CHROMECAST_CONTROL_PORT : Z := 8009.

Module Lifetime.

(** Modelled from the spec: the credentials and the sessions are those of
    VLC's core ([vlc_tls_ClientCreate], [vlc_tls_SocketOpenTLS],
    [vlc_tls_Close], [vlc_tls_Delete]) and the local address is found by its
    network layer ([net_GetSockAddress]); none of these is among the
    sources.  The core is what it answers, given in advance, and the record
    of the calls made to it. *)
Inductive core_call : Set :=
| ClientCreate (ok : bool)
    (* [vlc_tls_ClientCreate]; [ok]: credentials were returned *)
| SocketOpenTLS (host : string) (port : Z) (ok : bool)
    (* [vlc_tls_SocketOpenTLS] to [host] and [port]; [ok]: a session was
       returned *)
| GetSockAddress (ok : bool)
    (* [net_GetSockAddress] on the descriptor of the session; [ok]: it
       returned 0 *)
| Close                      (* [vlc_tls_Close] on the session *)
| Delete.                    (* [vlc_tls_Delete] on the credentials *)

Record vlc_core : Set := mk_core {
  credentials : bool;
    (* whether [vlc_tls_ClientCreate] returns credentials *)
  listening : string -> Z -> option vlc_tls_t;
    (* the session that opening a connection to a host and a port returns,
       if any *)
  local_address : option string;
    (* the numeric address [net_GetSockAddress] finds, if any *)
  calls : list core_call
    (* the calls made so far, oldest first *)
}.

Definition log (c : core_call) (core : vlc_core) : vlc_core :=
  mk_core (credentials core) (listening core) (local_address core)
    (calls core ++ [c]).

(** The credentials have no contents the client looks at. *)
Definition vlc_tls_creds_t : Set := unit.

(** Modelled from the spec: the members of the class, which is declared in
    [chromecast.h]; the two pointers are [None] when they are null. *)
Record object : Set := mk_object {
  m_creds : option vlc_tls_creds_t;
  m_tls : option vlc_tls_t;
  m_receiver_requestId : Z;
  m_requestId : Z;
  m_serverIp : string
}.

(** A constructor returns, and the object exists, or it throws a
    [std::runtime_error], and there is no object: no destructor will run
    for it. *)
Inductive construction : Set :=
| Constructed (this : object)
| Thrown (what : string).

Definition is_some {A : Type} (p : option A) : bool :=
  match p with Some _ => true | None => false end.

(** [ChromecastCommunication::ChromecastCommunication (p_module, targetIP,
    devicePort)]. *)
Definition constructor (core : vlc_core) (targetIP : string) (devicePort : Z)
  : construction * vlc_core :=
  let devicePort :=
    if devicePort =? 0 then CHROMECAST_CONTROL_PORT else devicePort in
  let m_creds := if credentials core then Some tt else None in
  let core := log (ClientCreate (is_some m_creds)) core in
  match m_creds with
  | None => (Thrown "Failed to create TLS client", core)
  | Some _ =>
      let m_tls := listening core targetIP devicePort in
      let core := log (SocketOpenTLS targetIP devicePort (is_some m_tls)) core in
      match m_tls with
      | None => (Thrown "Failed to create client session", log Delete core)
      | Some _ =>
          let psz_localIP := local_address core in
          let core := log (GetSockAddress (is_some psz_localIP)) core in
          match psz_localIP with
          | None => (Thrown "Cannot get local IP address", core)
          | Some psz_localIP =>
              (Constructed (mk_object m_creds m_tls 0 0 psz_localIP), core)
          end
      end
  end.

(** [ChromecastCommunication::disconnect ()]. *)
Definition disconnect (this : object) (core : vlc_core) : object * vlc_core :=
  match m_tls this with
  | Some _ =>
      let core := log Close core in
      let core := log Delete core in
      (mk_object (m_creds this) None (m_receiver_requestId this)
         (m_requestId this) (m_serverIp this),
       core)
  | None => (this, core)
  end.

(** [ChromecastCommunication::~ChromecastCommunication ()]. *)
Definition destructor (this : object) (core : vlc_core) : vlc_core :=
  snd (disconnect this core).

(** [disconnect] called [n] times. *)
Fixpoint disconnects (n : nat) (this : object) (core : vlc_core)
  : object * vlc_core :=
  match n with
  | O => (this, core)
  | S n' => let (this', core') := disconnect this core in disconnects n' this' core'
  end.

(** The state of the commands for an object that is connected. *)
Definition client (this : object) (heap : list bool)
  : option ChromecastCommunication :=
  match m_tls this with
  | Some tls =>
      Some (mkChromecast tls (m_receiver_requestId this) (m_requestId this)
              (m_serverIp this) heap [])
  | None => None
  end.

(** The credentials that were returned and not deleted, and the sessions
    that were returned and not closed. *)
Definition credentials_gain (c : core_call) : Z :=
  match c with
  | ClientCreate true => 1
  | Delete => -1
  | _ => 0
  end.

Definition sessions_gain (c : core_call) : Z :=
  match c with
  | SocketOpenTLS _ _ true => 1
  | Close => -1
  | _ => 0
  end.

Fixpoint total (gain : core_call -> Z) (l : list core_call) : Z :=
  match l with
  | [] => 0
  | c :: l' => gain c + total gain l'
  end.

Definition credentials_held (core : vlc_core) : Z :=
  total credentials_gain (calls core).

Definition sessions_open (core : vlc_core) : Z :=
  total sessions_gain (calls core).

(** Between two states of the core, [n] more credentials and [n] more
    sessions are held. *)
Definition holds_more (core core' : vlc_core) (n : Z) : Prop :=
  credentials_held core' = credentials_held core + n
  /\ sessions_open core' = sessions_open core + n.

End Lifetime.

(** ** Inputs of the further examples *)

(** A client whose next allocation fails. *)
Definition starved : ChromecastCommunication :=
  constructed fresh_tls "192.168.1.2" [false].

(** A session on which the frame of the PING of the example arrives in two
    reads, cut inside the length, with a read in between that would block,
    and two bytes of the next frame behind it. *)
Definition chopped : ChromecastCommunication :=
  constructed
    (mk_tls [] []
       [ Readv_data (firstn 3 (frame PING_envelope));
         Readv_fail EAGAIN 1 POLLIN;
         Readv_data (skipn 3 (frame PING_envelope) ++ [x00; x00]) ])
    "192.168.1.2" [].

(** A core on which everything succeeds. *)
Definition obliging : Lifetime.vlc_core :=
  Lifetime.mk_core true (fun _ _ => Some fresh_tls) (Some "192.168.1.2"%string) [].

(* ================================================================== *)
(** * Bytes, big-endian words and varints *)
(* ================================================================== *)

Import Wire.

Lemma Z_of_byte_range (b : byte) : 0 <= Z_of_byte b < 256.
Proof.
  unfold Z_of_byte. pose proof (Byte.to_N_bounded b). lia.
Qed.

Lemma Z_of_byte_of_Z (z : Z) : 0 <= z < 256 -> Z_of_byte (byte_of_Z z) = z.
Proof.
  intros Hz. unfold Z_of_byte, byte_of_Z.
  rewrite Z.mod_small by lia.
  destruct (Byte.of_N (Z.to_N z)) as [b|] eqn:E.
  - apply Byte.to_of_N in E. rewrite E. lia.
  - apply Byte.of_N_None_iff in E. lia.
Qed.

Lemma byte_of_Z_of_byte (b : byte) : byte_of_Z (Z_of_byte b) = b.
Proof.
  unfold byte_of_Z. rewrite Z.mod_small by apply Z_of_byte_range.
  unfold Z_of_byte. rewrite N2Z.id, Byte.of_to_N. reflexivity.
Qed.


Lemma testbit_octet (n k i : Z) :
  0 <= k -> 0 <= i ->
  Z.testbit (Z.shiftl (Z.land (Z.shiftr n k) 255) k) i
  = Z.testbit n i && ((k <=? i) && (i <? k + 8)).
Proof.
  intros Hk Hi. change 255 with (Z.ones 8).
  rewrite Z.shiftl_spec by lia.
  destruct (Z.leb_spec k i) as [Hki|Hki].
  - rewrite Z.land_spec, Z.shiftr_spec by lia.
    replace (i - k + k) with i by lia.
    destruct (Z.ltb_spec i (k + 8)).
    + rewrite Z.ones_spec_low by lia. reflexivity.
    + rewrite Z.ones_spec_high by lia. reflexivity.
  - rewrite Z.testbit_neg_r by lia. rewrite andb_false_r. reflexivity.
Qed.

Lemma testbit_above (n k i : Z) : 0 <= n < 2 ^ k -> k <= i -> Z.testbit n i = false.
Proof.
  intros Hn Hi. destruct (Z.eq_dec n 0) as [->|Hz].
  - apply Z.bits_0.
  - apply Z.bits_above_log2; [lia|].
    assert (Z.log2 n < k) by (apply Z.log2_lt_pow2; lia). lia.
Qed.

Lemma GetDWBE_SetDWBE (n : Z) (rest : list byte) :
  0 <= n < 2 ^ 32 -> GetDWBE (SetDWBE n ++ rest) = Some n.
Proof.
  intros Hn. unfold SetDWBE, to_uint32. rewrite Z.mod_small by lia.
  cbn [app GetDWBE]. f_equal.
  assert (Hb : forall m, 0 <= Z.land m 255 < 256).
  { intros m. change 255 with (Z.ones 8). rewrite Z.land_ones by lia.
    apply Z.mod_pos_bound. lia. }
  rewrite !Z_of_byte_of_Z by apply Hb.
  apply Z.bits_inj'. intros i Hi.
  replace (Z.land n 255) with (Z.shiftl (Z.land (Z.shiftr n 0) 255) 0)
    by (rewrite Z.shiftl_0_r, Z.shiftr_0_r; reflexivity).
  rewrite !Z.lor_spec, !testbit_octet by lia.
  destruct (Z.ltb_spec i 32) as [Hlt|Hge].
  - destruct (Z.testbit n i); cbn [andb orb]; [|reflexivity].
    destruct (Z.leb_spec 24 i), (Z.leb_spec 16 i), (Z.leb_spec 8 i), (Z.leb_spec 0 i),
      (Z.ltb_spec i (24 + 8)), (Z.ltb_spec i (16 + 8)), (Z.ltb_spec i (8 + 8)),
      (Z.ltb_spec i (0 + 8)); cbn; try reflexivity; lia.
  - rewrite (testbit_above n 32 i) by lia. reflexivity.
Qed.

Lemma VarintSize_fuel_length (fuel : nat) (n : Z) :
  VarintSize_fuel fuel n = blen (varint_fuel fuel n).
Proof.
  revert n. induction fuel as [|fuel IH]; intros n; cbn [VarintSize_fuel varint_fuel].
  - reflexivity.
  - destruct (n <? 128); [reflexivity|].
    rewrite IH. unfold blen. cbn [List.length]. lia.
Qed.

Lemma VarintSize_length (n : Z) : VarintSize n = blen (varint n).
Proof. apply VarintSize_fuel_length. Qed.

Lemma blen_app (a b : list byte) : blen (a ++ b) = blen a + blen b.
Proof. unfold blen. rewrite length_app. lia. Qed.

Lemma length_list_byte_of_string (s : string) :
  List.length (list_byte_of_string s) = String.length s.
Proof.
  induction s as [|c s IH]; cbn; [reflexivity|]. f_equal. exact IH.
Qed.

Lemma size_blen (s : string) : size s = blen (list_byte_of_string s).
Proof. unfold size, blen. rewrite length_list_byte_of_string. reflexivity. Qed.

(** The tag of a field numbered below 16 is one byte. *)
Lemma blen_tag (field wt : Z) :
  0 <= field < 16 -> 0 <= wt < 8 -> blen (tag field wt) = 1.
Proof.
  intros Hf Hw. unfold tag, varint. cbn [varint_fuel].
  assert (H : Z.lor (Z.shiftl field 3) wt < 128).
  { assert (Hl : Z.log2 (Z.lor (Z.shiftl field 3) wt) < 7).
    { rewrite Z.log2_lor by (try apply Z.shiftl_nonneg; lia).
      apply Z.max_lub_lt.
      - destruct (Z.eq_dec field 0) as [->|Hz]; [reflexivity|].
        rewrite Z.log2_shiftl by lia.
        assert (Z.log2 field < 4) by (apply Z.log2_lt_pow2; lia). lia.
      - destruct (Z.eq_dec wt 0) as [->|Hz]; [reflexivity|].
        assert (Z.log2 wt < 3) by (apply Z.log2_lt_pow2; lia). lia. }
    destruct (Z.eq_dec (Z.lor (Z.shiftl field 3) wt) 0) as [->|Hz]; [lia|].
    apply Z.log2_lt_pow2 in Hl; [exact Hl|].
    assert (0 <= Z.lor (Z.shiftl field 3) wt)
      by (apply Z.lor_nonneg; split; [apply Z.shiftl_nonneg|]; lia).
    lia. }
  apply Z.ltb_lt in H. rewrite H. reflexivity.
Qed.

Lemma blen_put_varint (field n : Z) :
  0 <= field < 16 -> blen (put_varint field n) = 1 + VarintSize n.
Proof.
  intros Hf. unfold put_varint.
  rewrite blen_app, VarintSize_length, blen_tag by (unfold WT_VARINT; lia).
  reflexivity.
Qed.

Lemma blen_put_string (field : Z) (s : string) :
  0 <= field < 16 -> blen (put_string field s) = 1 + StringSize s.
Proof.
  intros Hf. unfold put_string, put_bytes, StringSize.
  rewrite !blen_app, VarintSize_length, size_blen, blen_tag by (unfold WT_LEN; lia).
  lia.
Qed.

Lemma blen_put_opt (field : Z) (o : option string) :
  0 <= field < 16 -> blen (put_opt field o) = opt_size o.
Proof.
  intros Hf. destruct o as [s|]; cbn [put_opt opt_size].
  - apply blen_put_string; assumption.
  - reflexivity.
Qed.

Lemma ByteSize_Serialize (m : CastMessage) : ByteSize m = blen (Serialize m).
Proof.
  unfold ByteSize, Serialize.
  rewrite !blen_app, !blen_put_varint, !blen_put_string, !blen_put_opt by lia.
  lia.
Qed.

(* ================================================================== *)
(** * Framing *)
(* ================================================================== *)

Lemma to_int32_small (z : Z) : - 2 ^ 31 <= z < 2 ^ 31 -> to_int32 z = z.
Proof. intros H. unfold to_int32. rewrite Z.mod_small by lia. lia. Qed.

Lemma ByteSize_nonneg (m : CastMessage) : 0 <= ByteSize m.
Proof. rewrite ByteSize_Serialize. unfold blen. lia. Qed.

Lemma blen_frame (msg : CastMessage) :
  blen (frame msg) = PACKET_HEADER_LEN + ByteSize msg.
Proof.
  unfold frame. rewrite blen_app, ByteSize_Serialize. reflexivity.
Qed.

Lemma firstn_frame (msg : CastMessage) :
  firstn (Z.to_nat (PACKET_HEADER_LEN + ByteSize msg)) (frame msg) = frame msg.
Proof.
  apply firstn_all2. pose proof (blen_frame msg) as H. unfold blen in H. lia.
Qed.

Lemma frame_is_frame (msg : CastMessage) :
  ByteSize msg <= INT_MAX -> frame_of (Serialize msg) (frame msg).
Proof.
  intros Hsz. exists (SetDWBE (ByteSize msg)). split; [reflexivity|].
  split; [reflexivity|].
  rewrite <- (app_nil_r (SetDWBE _)), GetDWBE_SetDWBE.
  - rewrite ByteSize_Serialize. reflexivity.
  - pose proof (ByteSize_nonneg msg). unfold INT_MAX in Hsz. lia.
Qed.

Lemma SetDWBE_to_int32 (n : Z) : SetDWBE (to_int32 n) = SetDWBE n.
Proof.
  unfold SetDWBE. cbv zeta.
  replace (to_uint32 (to_int32 n)) with (to_uint32 n); [reflexivity|].
  unfold to_uint32, to_int32.
  rewrite <- Zminus_mod_idemp_l, Z.mod_mod by lia.
  rewrite Zminus_mod_idemp_l. replace (n + 2 ^ 31 - 2 ^ 31) with n by lia.
  reflexivity.
Qed.

(** While the sum of [sendMessage] does not overflow, the length is the
    length of the frame and the whole frame is handed over. *)
Lemma frame_len_small (msg : CastMessage) :
  ByteSize msg <= INT_MAX - PACKET_HEADER_LEN ->
  frame_len msg = PACKET_HEADER_LEN + ByteSize msg.
Proof.
  intros Hsz. pose proof (ByteSize_nonneg msg) as Hnn.
  unfold frame_len, INT_MAX, PACKET_HEADER_LEN in *.
  rewrite (to_int32_small (ByteSize msg)) by lia. apply to_int32_small. lia.
Qed.

Lemma handed_frame (msg : CastMessage) :
  ByteSize msg <= INT_MAX - PACKET_HEADER_LEN -> handed msg = frame msg.
Proof.
  intros Hsz. unfold handed. rewrite (frame_len_small msg Hsz). apply firstn_frame.
Qed.

(** [sendMessage] in one equation, by the outcome of the allocation. *)
Lemma sendMessage_run (msg : CastMessage) (s : ChromecastCommunication) :
  sendMessage msg s =
  if hd true (heap_script s) then
    let t := m_tls s in
    let w := write_result (tls_write_script t) (handed msg) in
    (Done (if to_int32 w =? frame_len msg then VLC_SUCCESS else VLC_EGENERIC),
     mkChromecast
       (mk_tls (tls_written t ++ [(handed msg, w)]) (List.tl (tls_write_script t))
          (tls_read_script t))
       (m_receiver_requestId s) (m_requestId s) (m_serverIp s)
       (List.tl (heap_script s)) (sent s ++ [msg]))
  else
    (Done VLC_ENOMEM,
     mkChromecast (m_tls s) (m_receiver_requestId s) (m_requestId s) (m_serverIp s)
       (List.tl (heap_script s)) (sent s ++ [msg])).
Proof.
  unfold sendMessage, bind, note, new_nothrow, vlc_tls_Write, ret, handed, frame_len.
  rewrite SetDWBE_to_int32. unfold frame.
  set (len := to_int32 (PACKET_HEADER_LEN + to_int32 (ByteSize msg))).
  set (buf := SetDWBE (ByteSize msg) ++ Serialize msg).
  clearbody len buf.
  destruct s as [t a b ip h l]. cbn.
  destruct h as [|[|] h]; cbn; try reflexivity;
    destruct (to_int32 _ =? _); reflexivity.
Qed.

Lemma wire_app (t : vlc_tls_t) (buf : list byte) (w : Z)
    (ws : list write_event) (rs : list readv_event) :
  wire (mk_tls (tls_written t ++ [(buf, w)]) ws rs)
  = wire t ++ firstn (Z.to_nat w) buf.
Proof.
  unfold wire. cbn. rewrite flat_map_app. cbn. rewrite app_nil_r. reflexivity.
Qed.

Lemma write_result_range (script : list write_event) (data : list byte) :
  -1 <= write_result script data <= blen data.
Proof.
  unfold write_result, blen. destruct script as [|[n|] script]; lia.
Qed.

Lemma sendMessage_done (msg : CastMessage) (s : ChromecastCommunication) :
  exists rc, sendMessage msg s = (Done rc, after_send msg s).
Proof.
  unfold after_send. rewrite sendMessage_run.
  destruct (hd true (heap_script s)); cbn; eexists; reflexivity.
Qed.

Lemma after_send_sent (msg : CastMessage) (s : ChromecastCommunication) :
  sent (after_send msg s) = sent s ++ [msg].
Proof. unfold after_send. rewrite sendMessage_run. destruct (hd _ _); reflexivity. Qed.

Lemma after_send_receiver_requestId (msg : CastMessage) (s : ChromecastCommunication) :
  m_receiver_requestId (after_send msg s) = m_receiver_requestId s.
Proof. unfold after_send. rewrite sendMessage_run. destruct (hd _ _); reflexivity. Qed.

Lemma after_send_requestId (msg : CastMessage) (s : ChromecastCommunication) :
  m_requestId (after_send msg s) = m_requestId s.
Proof. unfold after_send. rewrite sendMessage_run. destruct (hd _ _); reflexivity. Qed.

Lemma after_send_emitted (msg : CastMessage) (s : ChromecastCommunication) :
  hd true (heap_script s) = true ->
  emitted (after_send msg s) = emitted s ++ [handed msg].
Proof.
  intros H. unfold after_send, emitted. rewrite sendMessage_run, H.
  cbn. rewrite map_app. reflexivity.
Qed.

Lemma buildMessage_text (ns payload dest : string) (s : ChromecastCommunication) :
  buildMessage ns payload dest CastMessage_PayloadType_STRING s
  = (Done tt, after_send (text_message ns payload dest) s).
Proof.
  unfold buildMessage, bind. cbn [PayloadType_eqb PayloadType_value Z.eqb].
  fold (text_message ns payload dest).
  destruct (sendMessage_done (text_message ns payload dest) s) as [rc ->].
  reflexivity.
Qed.

(* ================================================================== *)
(** * String streams *)
(* ================================================================== *)

Lemma append_assoc (a b c : string) : ((a ++ b) ++ c = a ++ (b ++ c))%string.
Proof. induction a as [|x a IH]; cbn; [reflexivity | f_equal; exact IH]. Qed.

Section Streams.

Variable print_float : float -> string.

Lemma str_app (a b : stringstream) :
  str print_float (a ++ b) = (str print_float a ++ str print_float b)%string.
Proof.
  induction a as [|i a IH]; cbn; [reflexivity|].
  fold (str print_float (a ++ b)). fold (str print_float a).
  rewrite IH, append_assoc. reflexivity.
Qed.

(** A payload whose stream ends with the request id carries it. *)
Lemma carries_tail (ns dest : string) (pre : stringstream) (id : Z) :
  carries_requestId
    (text_message ns (str print_float (pre ++ requestId_tail id)) dest) id.
Proof.
  exists (str print_float pre). cbn [payload_utf8 text_message].
  rewrite str_app. reflexivity.
Qed.

End Streams.

(* ================================================================== *)
(** * What a call does to the counters and to the messages sent *)
(* ================================================================== *)

Section Effects.

Variable NDEBUG : bool.
Variable print_float : float -> string.

Lemma pushMediaPlayerMessage_run (dest : string) (ss : stringstream)
    (s : ChromecastCommunication) :
  pushMediaPlayerMessage NDEBUG print_float dest ss s
  = if NDEBUG || negb (String.eqb dest "")
    then (Done tt,
          after_send (text_message NAMESPACE_MEDIA (str print_float ss) dest) s)
    else (Aborted, s).
Proof.
  unfold pushMediaPlayerMessage, bind, assert_.
  destruct (NDEBUG || negb (String.eqb dest "")); [|reflexivity].
  apply buildMessage_text.
Qed.

Lemma receiver_command (pre : stringstream) (s s' : ChromecastCommunication) :
  (id <- next_receiver_requestId ;;
   buildMessage NAMESPACE_RECEIVER (str print_float (pre ++ requestId_tail id))
     DEFAULT_CHOMECAST_RECEIVER CastMessage_PayloadType_STRING) s = (Done tt, s') ->
  receiver_effect s s'.
Proof.
  unfold bind, next_receiver_requestId. rewrite buildMessage_text.
  intros H. injection H as <-.
  eexists. rewrite after_send_sent, after_send_requestId, after_send_receiver_requestId.
  split; [reflexivity|]. repeat split. apply carries_tail.
Qed.

Lemma media_command (dest : string) (pre : stringstream)
    (s s' : ChromecastCommunication) :
  (id <- next_requestId ;;
   pushMediaPlayerMessage NDEBUG print_float dest (pre ++ requestId_tail id)) s
  = (Done tt, s') ->
  media_effect s s'.
Proof.
  unfold bind, next_requestId. rewrite pushMediaPlayerMessage_run.
  destruct (NDEBUG || negb (String.eqb dest "")); [|discriminate].
  intros H. injection H as <-.
  eexists. rewrite after_send_sent, after_send_requestId, after_send_receiver_requestId.
  split; [reflexivity|]. repeat split. apply carries_tail.
Qed.

Lemma asserted {A : Type} (b : bool) (k : M A) (s s' : ChromecastCommunication)
    (a : A) :
  (assert_ NDEBUG b ;;; k) s = (Done a, s') -> k s = (Done a, s').
Proof.
  unfold bind, assert_. destruct (NDEBUG || b); [tauto | discriminate].
Qed.

Lemma unscoped_command (ns payload dest : string) (ty : CastMessage_PayloadType)
    (s s' : ChromecastCommunication) :
  String.eqb ns NAMESPACE_RECEIVER = false ->
  String.eqb ns NAMESPACE_MEDIA = false ->
  buildMessage ns payload dest ty s = (Done tt, s') -> unscoped_effect s s'.
Proof.
  intros Hr Hm. unfold buildMessage, bind.
  match goal with |- context [sendMessage ?m s] =>
    destruct (sendMessage_done m s) as [rc ->]; set (msg := m) end.
  intros H. injection H as <-. exists [msg].
  rewrite after_send_sent, after_send_requestId, after_send_receiver_requestId.
  repeat split. constructor; [|constructor].
  unfold unscoped, in_namespace, msg. destruct (PayloadType_eqb _ _); cbn; tauto.
Qed.

Lemma call_done (c : command) (s s' : ChromecastCommunication) :
  call NDEBUG print_float c s = (Done tt, s') -> call_effect c s s'.
Proof.
  unfold call_effect.
  destruct c; cbn [call receiver_scope media_scope].
  - unfold msgAuth. apply unscoped_command; reflexivity.
  - unfold msgPing. apply unscoped_command; reflexivity.
  - unfold msgPong. apply unscoped_command; reflexivity.
  - unfold msgConnect. apply unscoped_command; reflexivity.
  - unfold msgReceiverClose. apply unscoped_command; reflexivity.
  - unfold msgReceiverGetStatus. apply (receiver_command [_]).
  - unfold msgReceiverLaunchApp. apply (receiver_command [_; _; _; _]).
  - unfold msgPlayerGetStatus. apply (media_command _ [_]).
  - unfold msgPlayerLoad, bind at 1, get. apply (media_command _ [_; _; _; _; _]).
  - unfold msgPlayerPlay.
    intros H. apply asserted in H. revert H. apply (media_command _ [_; _; _; _]).
  - unfold msgPlayerStop.
    intros H. apply asserted in H. revert H. apply (media_command _ [_; _; _; _]).
  - unfold msgPlayerPause.
    intros H. apply asserted in H. revert H. apply (media_command _ [_; _; _; _]).
  - unfold msgPlayerSetVolume. intros H. apply asserted in H. revert H.
    destruct (volume_refused f_volume); cbn [negb].
    + intros H. injection H as <-. exists []. rewrite app_nil_r.
      repeat split. constructor.
    + apply (media_command _ [_; _; _; _; _; _; _; _; _]).
  - unfold msgPlayerSeek. intros H. apply asserted in H. revert H.
    apply (media_command _ [_; _; _; _; _; _; _]).
Qed.

End Effects.

Lemma ids_from_no_wrap (n : nat) (a : Z) :
  0 <= a -> a + Z.of_nat n <= 2 ^ 32 ->
  ids_from a n = List.map (fun i => a + Z.of_nat i) (List.seq 0 n).
Proof.
  revert a. induction n as [|n IH]; intros a Ha Hn; [reflexivity|].
  cbn [ids_from List.seq List.map]. f_equal; [lia|].
  destruct n as [|n]; [reflexivity|].
  unfold to_uint32. rewrite Z.mod_small by lia.
  rewrite IH by lia. rewrite <- seq_shift, map_map.
  apply map_ext. intros i. lia.
Qed.

Lemma ids_from_0 (n : nat) : Z.of_nat n <= 2 ^ 32 -> ids_from 0 n = first_ids n.
Proof.
  intros Hn. rewrite ids_from_no_wrap by lia. reflexivity.
Qed.

Lemma receiver_not_media (c : command) :
  receiver_scope c = true -> media_scope c = false.
Proof. destruct c; cbn; congruence. Qed.

Lemma filter_unscoped (ns : string) (new : list CastMessage) :
  ns = NAMESPACE_RECEIVER \/ ns = NAMESPACE_MEDIA ->
  Forall unscoped new -> List.filter (in_namespace ns) new = [].
Proof.
  intros Hns H. induction H as [|m new [Hr Hm] _ IH]; [reflexivity|].
  cbn [List.filter]. destruct Hns as [-> | ->]; [rewrite Hr | rewrite Hm]; exact IH.
Qed.

Section Runs.

Variable NDEBUG : bool.
Variable print_float : float -> string.

(** From any state on, the messages of each scope carry the ids its
    counter hands out, whatever the calls in between. *)
Lemma run_ids (cs : list command) :
  forall s s' : ChromecastCommunication,
    run NDEBUG print_float cs s = (Done tt, s') ->
    exists new,
      sent s' = sent s ++ new
      /\ Forall2 carries_requestId
           (List.filter (in_namespace NAMESPACE_RECEIVER) new)
           (ids_from (m_receiver_requestId s) (count receiver_scope cs))
      /\ Forall2 carries_requestId
           (List.filter (in_namespace NAMESPACE_MEDIA) new)
           (ids_from (m_requestId s) (count media_scope cs)).
Proof.
  induction cs as [|c cs IH]; intros s s' Hrun.
  - injection Hrun as <-. exists []. rewrite app_nil_r.
    repeat split; constructor.
  - cbn [run] in Hrun. unfold bind in Hrun.
    destruct (call NDEBUG print_float c s) as [[[]|] s1] eqn:Hcall; [|discriminate].
    apply call_done in Hcall. apply IH in Hrun as (new & Hsent & Hr & Hm).
    unfold call_effect in Hcall. unfold count in *. cbn [List.filter].
    destruct (receiver_scope c) eqn:Hrs.
    + rewrite (receiver_not_media c Hrs).
      destruct Hcall as (m & Hs1 & Hin & Hout & Hid & Hcnt & Hsame).
      exists (m :: new). rewrite Hsent, Hs1, <- app_assoc. split; [reflexivity|].
      cbn [List.filter List.length ids_from]. rewrite Hin, Hout.
      rewrite <- Hcnt, <- Hsame. split; [constructor|]; assumption.
    + destruct (media_scope c) eqn:Hms.
      * destruct Hcall as (m & Hs1 & Hin & Hout & Hid & Hcnt & Hsame).
        exists (m :: new). rewrite Hsent, Hs1, <- app_assoc. split; [reflexivity|].
        cbn [List.filter List.length ids_from]. rewrite Hin, Hout.
        rewrite <- Hcnt, <- Hsame. split; [|constructor]; assumption.
      * destruct Hcall as (new0 & Hs1 & Hun & Hr0 & Hm0).
        exists (new0 ++ new). rewrite Hsent, Hs1, <- app_assoc. split; [reflexivity|].
        rewrite !filter_app, !(filter_unscoped _ new0) by (assumption || tauto).
        rewrite <- Hr0, <- Hm0. split; assumption.
Qed.

End Runs.

(* ================================================================== *)
(** * The read loop *)
(* ================================================================== *)

Section ReadLoop.

Variable NDEBUG : bool.

(** Events that keep the loop turning are consumed one by one: their
    bytes go to the buffer and the loop goes on with what follows them. *)
Lemma receive_loop_keeps_reading (pre evs : list readv_event) :
  forall (i_size i_received : Z) (p_data : list byte) (pb_timeout : bool),
    keeps_reading i_size pre ->
    receive_loop NDEBUG (pre ++ evs) i_size i_received p_data pb_timeout
    = receive_loop NDEBUG evs (i_size - blen (delivered pre))
        (i_received + blen (delivered pre)) (p_data ++ delivered pre) pb_timeout.
Proof.
  induction pre as [|[bs|errno val revents] pre IH];
    intros i_size i_received p_data pb_timeout Hk.
  - cbn [app delivered]. unfold blen. cbn [List.length].
    rewrite app_nil_r. f_equal; lia.
  - destruct Hk as [Hbs Hk]. cbn [app receive_loop delivered].
    assert (Hall : firstn (Z.to_nat i_size) bs = bs)
      by (apply firstn_all2; unfold blen in Hbs; lia).
    assert (Hnone : skipn (Z.to_nat i_size) bs = [])
      by (apply skipn_all2; unfold blen in Hbs; lia).
    rewrite Hall, Hnone. cbn [requeue].
    destruct (Z.eqb_spec (blen bs) 0) as [E|_]; [lia|].
    destruct (Z.leb_spec (blen bs) i_size) as [_|E]; [|lia].
    rewrite orb_true_r. cbn [negb].
    destruct (Z.ltb_spec 0 (i_size - blen bs)) as [_|E]; [|lia].
    rewrite IH by exact Hk. rewrite blen_app, <- app_assoc. f_equal; lia.
  - destruct Hk as (-> & Hval & Hin & Hsz & Hk). cbn [app receive_loop delivered].
    cbn [Z.eqb EAGAIN Pos.eqb negb].
    destruct (Z.ltb_spec val 0) as [E|_]; [lia|].
    destruct (Z.eqb_spec val 0) as [E|_]; [lia|].
    destruct (Z.eqb_spec (Z.land revents POLLIN) 0) as [E|_]; [contradiction|].
    cbn [negb]. rewrite orb_true_r. cbn [negb].
    destruct (Z.ltb_spec 0 i_size) as [_|E]; [|lia].
    apply IH. exact Hk.
Qed.

Lemma keeps_reading_short (pre : list readv_event) :
  forall i_size : Z,
    keeps_reading i_size pre -> 0 < i_size -> blen (delivered pre) < i_size.
Proof.
  induction pre as [|[bs|errno val revents] pre IH]; intros i_size Hk Hsz.
  - exact Hsz.
  - destruct Hk as [Hbs Hk]. cbn [delivered]. rewrite blen_app.
    specialize (IH _ Hk). lia.
  - destruct Hk as (_ & _ & _ & _ & Hk). cbn [delivered]. apply IH; assumption.
Qed.

End ReadLoop.

(* ================================================================== *)
(** * The media descriptor *)
(* ================================================================== *)

Lemma uchar_inj (a b : ascii) : uchar a = uchar b -> a = b.
Proof.
  unfold uchar. intros H. apply N2Z.inj in H.
  rewrite <- (ascii_N_embedding a), <- (ascii_N_embedding b), H. reflexivity.
Qed.

(** Against a literal with no NUL in it, [strncmp] over the length of the
    literal is zero exactly when the string begins with the literal. *)
Lemma strncmp_prefix (lit : string) :
  no_nul lit ->
  forall s : string, (strncmp s lit (String.length lit) =? 0) = String.prefix lit s.
Proof.
  induction lit as [|a lit IH]; intros Hlit s; [destruct s; reflexivity|].
  destruct Hlit as [Ha Hlit]. cbn [String.length].
  destruct s as [|b s]; cbn [strncmp head_char tail String.prefix].
  - destruct (Z.eqb_spec 0 (uchar a)) as [E|_]; [congruence|].
    apply Z.eqb_neq. lia.
  - destruct (ascii_dec a b) as [<-|Hab].
    + rewrite Z.eqb_refl. destruct (Z.eqb_spec (uchar a) 0) as [E|_]; [contradiction|].
      apply IH. exact Hlit.
    + destruct (Z.eqb_spec (uchar b) (uchar a)) as [E|E].
      * apply uchar_inj in E. congruence.
      * apply Z.eqb_neq. lia.
Qed.

Lemma b_music_prefix (mime : string) :
  (strncmp mime "audio" (String.length "audio") =? 0) = String.prefix "audio" mime.
Proof. apply strncmp_prefix. cbn. repeat split; discriminate. Qed.

Lemma In_put_if (x : insertion) (p : option string) (before after : string) :
  In x (put_if p before after)
  <-> exists v, p = Some v /\ (x = Lit before \/ x = Str v \/ x = Lit after).
Proof.
  destruct p as [v|]; cbn [put_if In].
  - split.
    + intros H. exists v. split; [reflexivity|]. intuition congruence.
    + intros (v' & [= <-] & H). intuition congruence.
  - split; [tauto | intros (v & H & _); discriminate].
Qed.

(** Takes the hypotheses apart and closes the goal when one of them equates
    two insertions that differ. *)
Ltac split_all :=
  repeat match goal with
  | H : _ /\ _ |- _ => destruct H
  | H : exists _, _ |- _ => destruct H
  | H : _ \/ _ |- _ => destruct H
  | H : False |- _ => destruct H
  | H : Some _ = Some _ |- _ => injection H as H; try subst
  | H : (_, _) = (_, _) |- _ => injection H as H ?; try subst
  | H : Some _ = None |- _ => discriminate H
  | H : None = Some _ |- _ => discriminate H
  | H : @eq insertion _ _ |- _ =>
      first [ discriminate H | vm_compute in H; discriminate H ]
  end.

(** Finds, in a disjunction, the field whose entry is known. *)
Ltac pick :=
  first [ solve [eexists; split; [reflexivity | left; reflexivity]]
        | left; pick | right; pick ].

Section Media.

Variable print_float : float -> string.
Variable this : ChromecastCommunication.

Lemma metadata_none (mime : string) (p_meta : option vlc_meta_t) :
  resolved_title p_meta = None -> GetMedia_metadata mime p_meta = [].
Proof.
  destruct p_meta as [m|]; [|reflexivity].
  unfold resolved_title, GetMedia_metadata, vlc_meta_Get.
  destruct (m vlc_meta_Title); [discriminate|].
  destruct (m vlc_meta_NowPlaying); [discriminate|].
  intros ->. reflexivity.
Qed.

Lemma metadata_begins (i_port : Z) (mime : string) (p_meta : option vlc_meta_t)
    (title : string) :
  resolved_title p_meta = Some title ->
  exists rest,
    GetMedia_ss print_float this i_port mime p_meta
    = [ Lit (quoted "metadata" ++ ":{");
        Lit (" " ++ quoted "metadataType" ++ ":");
        Lit (if String.prefix "audio" mime then "3" else "0");
        Lit ("," ++ quoted "title" ++ ":" ++ dq); Str title; Lit dq ] ++ rest.
Proof.
  unfold resolved_title, GetMedia_ss, GetMedia_metadata, vlc_meta_Get.
  rewrite b_music_prefix.
  destruct p_meta as [p|]; [|discriminate].
  destruct (p vlc_meta_Title) as [t|];
    [| destruct (p vlc_meta_NowPlaying) as [t|];
       [| destruct (p vlc_meta_ESNowPlaying) as [t|]; [|discriminate]]].
  all: intros [= ->]; eexists; cbn [app]; reflexivity.
Qed.

Lemma metadata_emitted (i_port : Z) (mime : string) (p_meta : option vlc_meta_t) :
  emits_metadata (GetMedia_ss print_float this i_port mime p_meta)
  <-> resolved_title p_meta <> None.
Proof.
  split.
  - intros H E. unfold emits_metadata, GetMedia_ss in H.
    rewrite (metadata_none mime p_meta E) in H. cbn [app In] in H. split_all.
  - destruct (resolved_title p_meta) as [title|] eqn:E; [|congruence]. intros _.
    destruct (metadata_begins i_port mime p_meta title E) as [rest ->].
    left. reflexivity.
Qed.

Lemma music_field_emitted (key : string) (t : vlc_meta_type_t) (i_port : Z)
    (mime : string) (p_meta : option vlc_meta_t) :
  In (key, t) music_fields ->
  (emits key (GetMedia_ss print_float this i_port mime p_meta)
   <-> String.prefix "audio" mime = true
       /\ meta_entry p_meta vlc_meta_Title <> None
       /\ meta_entry p_meta t <> None).
Proof.
  intros Hkey. unfold emits, GetMedia_ss, GetMedia_metadata, meta_entry.
  rewrite b_music_prefix.
  destruct p_meta as [p|];
    [| cbn [music_fields In] in Hkey; split_all;
       (split; [cbn [In app]; intros H; split_all | tauto]) ].
  unfold vlc_meta_Get.
  destruct (String.prefix "audio" mime);
    destruct (p vlc_meta_Title) as [title|];
    [ | destruct (p vlc_meta_NowPlaying) as [np|];
        [| destruct (p vlc_meta_ESNowPlaying) as [es|]]
      | | destruct (p vlc_meta_NowPlaying) as [np|];
        [| destruct (p vlc_meta_ESNowPlaying) as [es|]] ];
    cbn [is_set andb app].
  all: try (destruct (p vlc_meta_ArtworkURL) as [art|];
            [destruct (strncmp art "http" 4 =? 0)|]).
  all: cbn [In app]; rewrite ?in_app_iff, ?In_put_if; cbn [In].
  all: cbn [music_fields In] in Hkey.
  all: split; [intros H | intros (Hm & Ht & Hv)]; try congruence.
  all: split_all; try discriminate.
  all: try (repeat split; congruence).
  all: match goal with
       | Hv : ?q ?t <> None |- _ => destruct (q t) eqn:E; [|congruence]
       end.
  all: pick.
Qed.

End Media.

(* ================================================================== *)
(** * The test on the volume *)
(* ================================================================== *)

(** Comparing the other way round gives the opposite answer. *)
Lemma SFcompare_swap (x y : spec_float) :
  SFcompare y x = option_map CompOpp (SFcompare x y).
Proof.
  destruct x as [sx|sx| |sx mx ex], y as [sy|sy| |sy my ey]; cbn;
    try reflexivity; try (destruct sx; reflexivity); try (destruct sy; reflexivity);
    try (destruct sx, sy; reflexivity).
  f_equal. rewrite (Z.compare_antisym ex ey).
  change (PosDef.Pos.compare_cont Eq my mx) with (Pos.compare my mx).
  change (PosDef.Pos.compare_cont Eq mx my) with (Pos.compare mx my).
  rewrite (Pos.compare_antisym mx my).
  destruct sx, sy; try reflexivity;
    destruct (ex ?= ey); cbn; try reflexivity;
    destruct (mx ?= my)%positive; reflexivity.
Qed.

Lemma leb_not_gt (x y : float) : (x <=? y)%float = true -> (y <? x)%float = false.
Proof.
  rewrite leb_spec, ltb_spec. unfold SFleb, SFltb.
  rewrite (SFcompare_swap (Prim2SF x) (Prim2SF y)).
  destruct (SFcompare (Prim2SF x) (Prim2SF y)) as [[| |]|]; cbn; congruence.
Qed.

(** A volume between 0.0 and 1.0 passes the test of [msgPlayerSetVolume];
    one below 0.0 or above 1.0 does not. *)
Lemma in_range_accepted (v : float) :
  (0 <=? v)%float = true -> (v <=? 1)%float = true -> volume_refused v = false.
Proof.
  intros H0 H1. unfold volume_refused.
  rewrite (leb_not_gt _ _ H0), (leb_not_gt _ _ H1). reflexivity.
Qed.

Lemma out_of_range_refused (v : float) :
  (v <? 0)%float = true \/ (1 <? v)%float = true -> volume_refused v = true.
Proof.
  unfold volume_refused. intros [-> | ->]; [reflexivity | apply orb_true_r].
Qed.

(* ================================================================== *)
(** * Reading the wire format back *)
(* ================================================================== *)

Lemma low7_high (n : Z) :
  0 <= n -> Z.lor (Z.land n 127) (Z.shiftl (Z.shiftr n 7) 7) = n.
Proof.
  intros Hn. apply Z.bits_inj'. intros i Hi.
  rewrite Z.lor_spec, Z.land_spec. rewrite Z.shiftl_spec by exact Hi.
  change 127 with (Z.ones 7).
  destruct (Z.ltb_spec i 7).
  - rewrite Z.ones_spec_low, (Z.testbit_neg_r _ (i - 7)) by lia.
    rewrite andb_true_r, orb_false_r. reflexivity.
  - rewrite Z.ones_spec_high, Z.shiftr_spec by lia.
    rewrite andb_false_r. cbn [orb]. f_equal. lia.
Qed.

Lemma continuation_byte (n : Z) :
  let v := Z.lor (Z.land n 127) 128 in
  128 <= v < 256 /\ Z.land v 127 = Z.land n 127.
Proof.
  cbv zeta.
  assert (H : 0 <= Z.land n 127 < 128).
  { change 127 with (Z.ones 7). rewrite Z.land_ones by lia.
    apply Z.mod_pos_bound. lia. }
  assert (E : Z.lor (Z.land n 127) 128 = Z.land n 127 + 128).
  { rewrite <- Z.lxor_lor, <- Z.add_nocarry_lxor; try reflexivity.
    all: apply Z.bits_inj'; intros i Hi;
      rewrite !Z.land_spec, Z.bits_0; change 127 with (Z.ones 7); change 128 with (2 ^ 7);
      rewrite Z.pow2_bits_eqb by lia;
      destruct (Z.eqb_spec 7 i) as [<-|]; [|rewrite andb_false_r; reflexivity];
      rewrite Z.ones_spec_high by lia; rewrite andb_false_r; reflexivity. }
  rewrite E. split; [lia|].
  change 127 with (Z.ones 7). rewrite !Z.land_ones by lia.
  change (2 ^ 7) with 128.
  rewrite <- Z.add_mod_idemp_r, Z.mod_same, Z.add_0_r, Z.mod_mod by lia. reflexivity.
Qed.

Lemma varint_fuel_S (fuel : nat) (n : Z) :
  varint_fuel (S fuel) n
  = if n <? 128 then [byte_of_Z n]
    else byte_of_Z (Z.lor (Z.land n 127) 128) :: varint_fuel fuel (Z.shiftr n 7).
Proof. reflexivity. Qed.

Lemma read_varint_fuel_S (fuel : nat) (b : byte) (rest : list byte) :
  read_varint_fuel (S fuel) (b :: rest)
  = if Z_of_byte b <? 128 then Some (Z_of_byte b, rest)
    else match read_varint_fuel fuel rest with
         | Some (hi, rest') =>
             Some (Z.lor (Z.land (Z_of_byte b) 127) (Z.shiftl hi 7), rest')
         | None => None
         end.
Proof. reflexivity. Qed.

Lemma read_varint_fuel_varint (fuel : nat) :
  forall (n : Z) (rest : list byte),
    0 <= n < 2 ^ (7 * Z.of_nat (S fuel)) ->
    read_varint_fuel (S fuel) (varint_fuel (S fuel) n ++ rest) = Some (n, rest).
Proof.
  induction fuel as [|fuel IH]; intros n rest Hn; rewrite varint_fuel_S;
    (destruct (Z.ltb_spec n 128) as [Hsmall|Hbig];
     [ cbn [app]; rewrite read_varint_fuel_S, Z_of_byte_of_Z by lia;
       apply Z.ltb_lt in Hsmall; rewrite Hsmall; reflexivity |]).
  - change (2 ^ (7 * Z.of_nat 1)) with 128 in Hn. lia.
  - cbn [app]. destruct (continuation_byte n) as [Hv Hlow].
    rewrite read_varint_fuel_S, Z_of_byte_of_Z by lia.
    destruct (Z.ltb_spec (Z.lor (Z.land n 127) 128) 128) as [E|_]; [lia|].
    rewrite IH.
    + rewrite Hlow, low7_high by lia. reflexivity.
    + rewrite Z.shiftr_div_pow2 by lia. split; [apply Z.div_pos; lia|].
      apply Z.div_lt_upper_bound; [lia|].
      rewrite <- Z.pow_add_r by lia.
      replace (7 + 7 * Z.of_nat (S fuel)) with (7 * Z.of_nat (S (S fuel))) by lia.
      lia.
Qed.

Lemma read_varint_varint (n : Z) (rest : list byte) :
  0 <= n < 2 ^ 63 -> read_varint (varint n ++ rest) = Some (n, rest).
Proof.
  intros Hn. apply read_varint_fuel_varint.
  change (2 ^ (7 * Z.of_nat 10)) with (2 ^ 63 * 128). lia.
Qed.

Lemma take_app (body rest : list byte) :
  take (blen body) (body ++ rest) = Some (body, rest).
Proof.
  unfold take, blen. rewrite length_app, Nat2Z.id.
  destruct (Z.leb_spec 0 (Z.of_nat (List.length body))) as [_|E]; [|lia].
  destruct (Z.leb_spec (Z.of_nat (List.length body))
              (Z.of_nat (List.length body + List.length rest))) as [_|E]; [|lia].
  cbn [andb]. rewrite firstn_app, Nat.sub_diag, firstn_all, firstn_O, app_nil_r.
  rewrite skipn_app, Nat.sub_diag, skipn_all. reflexivity.
Qed.

(** One turn of [parse_fields] on an input that is not empty. *)
Lemma parse_fields_S (fuel : nat) (b : byte) (bs : list byte) (acc : partial) :
  parse_fields (S fuel) (b :: bs) acc
  = match read_varint (b :: bs) with
    | None => None
    | Some (t, rest) =>
        let field := Z.shiftr t 3 in
        let wt := Z.land t 7 in
        if field =? 0 then None
        else if wt =? WT_VARINT then
          match read_varint rest with
          | Some (v, rest') => parse_fields fuel rest' (set_varint field v acc)
          | None => None
          end
        else if wt =? WT_LEN then
          match read_varint rest with
          | Some (l, rest') =>
              match take l rest' with
              | Some (body, rest'') =>
                  parse_fields fuel rest'' (set_bytes field body acc)
              | None => None
              end
          | None => None
          end
        else if wt =? WT_FIXED64 then
          match take 8 rest with
          | Some (_, rest') => parse_fields fuel rest' acc
          | None => None
          end
        else if wt =? WT_FIXED32 then
          match take 4 rest with
          | Some (_, rest') => parse_fields fuel rest' acc
          | None => None
          end
        else None
    end.
Proof. reflexivity. Qed.

Ltac fields k :=
  let H := fresh in
  assert (H : k = 1 \/ k = 2 \/ k = 3 \/ k = 4 \/ k = 5 \/ k = 6 \/ k = 7) by lia;
  destruct H as [-> | [-> | [-> | [-> | [-> | [-> | ->]]]]]].

Lemma tag_bytes (k wt : Z) :
  0 < k < 8 -> wt = 0 \/ wt = 2 ->
  exists b,
    tag k wt = [b]
    /\ (forall rest, read_varint (b :: rest) = Some (8 * k + wt, rest))
    /\ Z.shiftr (8 * k + wt) 3 = k
    /\ Z.land (8 * k + wt) 7 = wt.
Proof.
  intros Hk Hwt. fields k; destruct Hwt as [-> | ->];
    eexists; (split; [reflexivity|]); (split; [intros rest; reflexivity|]);
    split; reflexivity.
Qed.

(** A varint field and a length-delimited field are read back and stored. *)
Lemma parse_varint_field (fuel : nat) (k v : Z) (rest : list byte) (acc : partial) :
  0 < k < 8 -> 0 <= v < 2 ^ 63 ->
  parse_fields (S fuel) (put_varint k v ++ rest) acc
  = parse_fields fuel rest (set_varint k v acc).
Proof.
  intros Hk Hv. unfold put_varint.
  destruct (tag_bytes k WT_VARINT Hk (or_introl eq_refl)) as (b & -> & Hread & Hf & Hw).
  rewrite <- app_assoc. cbn [app]. rewrite parse_fields_S, Hread. cbv zeta.
  rewrite Hf, Hw. destruct (Z.eqb_spec k 0) as [E|_]; [lia|].
  cbn [WT_VARINT Z.eqb]. rewrite read_varint_varint by exact Hv. reflexivity.
Qed.

Lemma parse_bytes_field (fuel : nat) (k : Z) (body rest : list byte) (acc : partial) :
  0 < k < 8 -> blen body < 2 ^ 63 ->
  parse_fields (S fuel) (put_bytes k body ++ rest) acc
  = parse_fields fuel rest (set_bytes k body acc).
Proof.
  intros Hk Hv. unfold put_bytes.
  destruct (tag_bytes k WT_LEN Hk (or_intror eq_refl)) as (b & -> & Hread & Hf & Hw).
  rewrite <- !app_assoc. cbn [app]. rewrite parse_fields_S, Hread. cbv zeta.
  rewrite Hf, Hw. destruct (Z.eqb_spec k 0) as [E|_]; [lia|].
  cbn [WT_LEN WT_VARINT Z.eqb Pos.eqb].
  rewrite read_varint_varint by (unfold blen in *; lia).
  rewrite take_app. reflexivity.
Qed.

Lemma parse_string_field (fuel : nat) (k : Z) (s : string) (rest : list byte)
    (acc : partial) :
  0 < k < 8 -> size s < 2 ^ 63 ->
  parse_fields (S fuel) (put_string k s ++ rest) acc
  = parse_fields fuel rest (set_bytes k (list_byte_of_string s) acc).
Proof.
  intros Hk Hs. apply parse_bytes_field; [exact Hk|]. rewrite <- size_blen. exact Hs.
Qed.

Lemma StringSize_bound (s : string) : size s <= StringSize s.
Proof.
  unfold StringSize. rewrite VarintSize_length. unfold blen. lia.
Qed.

Lemma opt_size_nonneg (o : option string) : 0 <= opt_size o.
Proof.
  destruct o as [s|]; cbn [opt_size]; [|lia].
  pose proof (StringSize_bound s). unfold size in *. lia.
Qed.

Lemma opt_size_bound (s : string) : size s <= opt_size (Some s).
Proof. cbn [opt_size]. pose proof (StringSize_bound s). lia. Qed.

(** A serialized envelope parses back to the envelope. *)
Lemma ParseFromArray_Serialize (m : CastMessage) :
  ByteSize m <= INT_MAX -> ParseFromArray (Serialize m) = Some m.
Proof.
  intros Hsz. unfold ParseFromArray.
  pose proof (StringSize_bound (source_id m)) as H2.
  pose proof (StringSize_bound (destination_id m)) as H3.
  pose proof (StringSize_bound (namespace_ m)) as H4.
  pose proof (opt_size_nonneg (payload_utf8 m)) as H6.
  pose proof (opt_size_nonneg (payload_binary m)) as H7.
  assert (Hsrc : 0 <= size (source_id m)) by (unfold size; lia).
  assert (Hdst : 0 <= size (destination_id m)) by (unfold size; lia).
  assert (Hns : 0 <= size (namespace_ m)) by (unfold size; lia).
  assert (Hv : forall n, 0 <= VarintSize n).
  { intros n. rewrite VarintSize_length. unfold blen. lia. }
  pose proof (Hv (ProtocolVersion_value (protocol_version m))).
  pose proof (Hv (PayloadType_value (payload_type m))).
  unfold ByteSize, INT_MAX in Hsz.
  assert (Hlen : (7 <= List.length (Serialize m))%nat).
  { pose proof (ByteSize_Serialize m) as E. unfold ByteSize, blen in E.
    pose proof (Hv (size (source_id m))). pose proof (Hv (size (destination_id m))).
    pose proof (Hv (size (namespace_ m))).
    assert (1 <= VarintSize (ProtocolVersion_value (protocol_version m)))
      by (destruct (protocol_version m); cbn; lia).
    assert (1 <= VarintSize (PayloadType_value (payload_type m)))
      by (destruct (payload_type m); cbn; lia).
    unfold StringSize in *. lia. }
  destruct (List.length (Serialize m)) as [|[|[|[|[|[|[|n]]]]]]]; try lia.
  unfold Serialize.
  rewrite parse_varint_field by (destruct (protocol_version m); cbn; lia).
  rewrite !parse_string_field by lia.
  rewrite parse_varint_field by (destruct (payload_type m); cbn; lia).
  destruct m as [v src dst ns ty utf8 bin]. cbn [payload_utf8 payload_binary] in *.
  cbn [protocol_version source_id destination_id namespace_ payload_type].
  destruct utf8 as [u|], bin as [b|]; cbn [put_opt app].
  - pose proof (opt_size_bound u). pose proof (opt_size_bound b).
    rewrite !parse_string_field by lia. rewrite <- (app_nil_r (put_string 7 b)).
    rewrite parse_string_field by lia.
    destruct v, ty; cbn; rewrite !string_of_list_byte_of_string; reflexivity.
  - pose proof (opt_size_bound u).
    rewrite parse_string_field by lia.
    destruct v, ty; cbn; rewrite !string_of_list_byte_of_string; reflexivity.
  - pose proof (opt_size_bound b).
    rewrite <- (app_nil_r (put_string 7 b)). rewrite parse_string_field by lia.
    destruct v, ty; cbn; rewrite !string_of_list_byte_of_string; reflexivity.
  - destruct v, ty; cbn; rewrite !string_of_list_byte_of_string; reflexivity.
Qed.

(* ================================================================== *)
(** * The outcomes of the read loop *)
(* ================================================================== *)

Lemma blen_firstn (n : Z) (bs : list byte) : blen (firstn (Z.to_nat n) bs) <= Z.max 0 n.
Proof. unfold blen. rewrite length_firstn. lia. Qed.

Lemma receive_loop_outcome (NDEBUG : bool) (evs : list readv_event) :
  forall (i_size i_received : Z) (p_data : list byte),
    0 < i_size -> i_received = blen p_data ->
    receive_outcome NDEBUG i_size i_received
      (fst (receive_loop NDEBUG evs i_size i_received p_data false)).
Proof.
  induction evs as [|[bs|errno val revents] evs IH];
    intros i_size i_received p_data Hsz Hrec; cbn [receive_loop].
  - cbn. right. left. repeat split; lia.
  - pose proof (blen_firstn i_size bs) as Hgot.
    set (got := firstn (Z.to_nat i_size) bs) in *.
    destruct (Z.eqb_spec (blen got) 0) as [E|E]; [cbn; left; split; reflexivity|].
    destruct (Z.leb_spec (blen got) i_size) as [Hle|Hgt]; [|lia].
    rewrite orb_true_r. cbn [negb].
    assert (0 <= blen got) by (unfold blen; lia).
    destruct (Z.ltb_spec 0 (i_size - blen got)) as [Hmore|Hfull].
    + specialize (IH (i_size - blen got) (i_received + blen got) (p_data ++ got)
                     Hmore ltac:(rewrite blen_app; lia)).
      destruct (fst (receive_loop _ _ _ _ _ _)) as [[[ret t] data]|]; [|exact IH].
      cbn in IH |- *. intuition lia.
    + cbn. right. right. rewrite blen_app. repeat split; lia.
  - destruct (errno =? EAGAIN); cbn [negb]; [|cbn; left; split; reflexivity].
    destruct (val <? 0); [cbn; left; split; reflexivity|].
    destruct (val =? 0); [cbn; right; left; repeat split; lia|].
    destruct NDEBUG; cbn [orb negb].
    + destruct (Z.ltb_spec 0 i_size); [|lia]. apply IH; assumption.
    + destruct (Z.land revents POLLIN =? 0); cbn [negb]; [reflexivity|].
      destruct (Z.ltb_spec 0 i_size); [|lia]. apply IH; assumption.
Qed.

(* ================================================================== *)
(** * What a run hands to the session *)
(* ================================================================== *)

Lemma only_frames_same (s s' : ChromecastCommunication) :
  sent s' = sent s -> emitted s' = emitted s -> only_frames s s'.
Proof.
  intros Hs He. exists [], []. rewrite !app_nil_r.
  repeat split; try assumption; constructor.
Qed.

Lemma only_frames_trans (s1 s2 s3 : ChromecastCommunication) :
  only_frames s1 s2 -> only_frames s2 s3 -> only_frames s1 s3.
Proof.
  intros (n1 & b1 & Hs1 & He1 & S1 & F1) (n2 & b2 & Hs2 & He2 & S2 & F2).
  exists (n1 ++ n2), (b1 ++ b2). rewrite Hs2, Hs1, He2, He1, <- !app_assoc.
  repeat split.
  - apply Forall_app. split; assumption.
  - apply Forall_app. split.
    + eapply Forall_impl; [|exact F1]. intros buf (m & Hin & ->).
      exists m. split; [apply in_or_app; left; exact Hin | reflexivity].
    + eapply Forall_impl; [|exact F2]. intros buf (m & Hin & ->).
      exists m. split; [apply in_or_app; right; exact Hin | reflexivity].
Qed.

Lemma only_frames_send (msg : CastMessage) (s : ChromecastCommunication) :
  source_id msg = "sender-vlc"%string -> only_frames s (after_send msg s).
Proof.
  intros Hsrc. unfold after_send, only_frames, emitted. rewrite sendMessage_run.
  destruct (hd true (heap_script s)); cbn [snd sent m_tls tls_written].
  - exists [msg], [handed msg]. rewrite map_app. repeat split.
    + constructor; [exact Hsrc | constructor].
    + constructor; [|constructor]. exists msg. split; [left|]; reflexivity.
  - exists [msg], []. rewrite app_nil_r. repeat split.
    + constructor; [exact Hsrc | constructor].
    + constructor.
Qed.

Lemma buildMessage_run (ns payload dest : string) (ty : CastMessage_PayloadType)
    (s : ChromecastCommunication) :
  exists m,
    buildMessage ns payload dest ty s = (Done tt, after_send m s)
    /\ source_id m = "sender-vlc"%string.
Proof.
  unfold buildMessage, bind.
  match goal with |- context [sendMessage ?m s] =>
    destruct (sendMessage_done m s) as [rc ->]; exists m end.
  split; [reflexivity|]. destruct (PayloadType_eqb _ _); reflexivity.
Qed.

Section Frames.

Variable NDEBUG : bool.
Variable print_float : float -> string.

Lemma only_frames_build (ns payload dest : string) (ty : CastMessage_PayloadType)
    (s0 s : ChromecastCommunication) :
  only_frames s0 s -> only_frames s0 (snd (buildMessage ns payload dest ty s)).
Proof.
  intros H. destruct (buildMessage_run ns payload dest ty s) as (m & -> & Hsrc).
  eapply only_frames_trans; [exact H | apply only_frames_send; exact Hsrc].
Qed.

Lemma only_frames_push (dest : string) (ss : stringstream)
    (s0 s : ChromecastCommunication) :
  only_frames s0 s ->
  only_frames s0 (snd (pushMediaPlayerMessage NDEBUG print_float dest ss s)).
Proof.
  intros H. rewrite pushMediaPlayerMessage_run.
  destruct (NDEBUG || negb (String.eqb dest "")); cbn [snd]; [|exact H].
  eapply only_frames_trans; [exact H | apply only_frames_send; reflexivity].
Qed.

Lemma only_frames_call (c : command) (s : ChromecastCommunication) :
  only_frames s (snd (call NDEBUG print_float c s)).
Proof.
  assert (Hs : only_frames s s) by (apply only_frames_same; reflexivity).
  assert (Hm : forall n, only_frames s (set_requestId n s))
    by (intros n; apply only_frames_same; reflexivity).
  assert (Hr : forall n, only_frames s (set_receiver_requestId n s))
    by (intros n; apply only_frames_same; reflexivity).
  destruct c; cbn [call];
    unfold msgAuth, msgPing, msgPong, msgConnect, msgReceiverClose,
      msgReceiverGetStatus, msgReceiverLaunchApp, msgPlayerGetStatus, msgPlayerLoad,
      msgPlayerPlay, msgPlayerStop, msgPlayerPause, msgPlayerSetVolume, msgPlayerSeek;
    unfold bind, assert_, get, next_requestId, next_receiver_requestId, ret;
    repeat match goal with
           | |- context [if ?b then _ else _] =>
               lazymatch b with
               | NDEBUG || negb (_ =? 0) => destruct b
               | volume_refused _ => destruct b
               end
           end;
    cbn [snd];
    first [ exact Hs | apply only_frames_build; auto | apply only_frames_push; auto ].
Qed.

Lemma only_frames_run (cs : list command) :
  forall s : ChromecastCommunication,
    only_frames s (snd (run NDEBUG print_float cs s)).
Proof.
  induction cs as [|c cs IH]; intros s.
  - apply only_frames_same; reflexivity.
  - cbn [run]. unfold bind.
    pose proof (only_frames_call c s) as Hc.
    destruct (call NDEBUG print_float c s) as [[[]|] s1]; cbn [snd] in *.
    + eapply only_frames_trans; [exact Hc | apply IH].
    + exact Hc.
Qed.

End Frames.

(* ================================================================== *)
(** * The media descriptor: the artwork and the fields of the stream *)
(* ================================================================== *)

Lemma http_prefix (url : string) :
  (strncmp url "http" 4 =? 0) = String.prefix "http" url.
Proof. apply (strncmp_prefix "http"). cbn. repeat split; discriminate. Qed.

Lemma append_empty_r (s : string) : (s ++ "")%string = s.
Proof. induction s as [|c s IH]; cbn; [reflexivity | f_equal; exact IH]. Qed.

Section Descriptor.

Variable print_float : float -> string.
Variable this : ChromecastCommunication.

Lemma artwork_emitted (i_port : Z) (mime : string) (p_meta : option vlc_meta_t) :
  emits_images (GetMedia_ss print_float this i_port mime p_meta)
  <-> resolved_title p_meta <> None
      /\ exists url, meta_entry p_meta vlc_meta_ArtworkURL = Some url
                     /\ String.prefix "http" url = true.
Proof.
  unfold emits_images, GetMedia_ss, GetMedia_metadata, meta_entry, resolved_title.
  destruct p_meta as [p|].
  2:{ cbn [app In]. split; [intros H; split_all | intros [H _]; congruence]. }
  unfold vlc_meta_Get.
  destruct (p vlc_meta_ArtworkURL) as [art|].
  1: rewrite http_prefix; destruct (String.prefix "http" art) eqn:Eart.
  all: destruct (strncmp mime "audio" (String.length "audio") =? 0);
    destruct (p vlc_meta_Title) as [title|];
    [ | destruct (p vlc_meta_NowPlaying) as [np|];
        [| destruct (p vlc_meta_ESNowPlaying) as [es|]]
      | | destruct (p vlc_meta_NowPlaying) as [np|];
        [| destruct (p vlc_meta_ESNowPlaying) as [es|]] ];
    cbn [is_set andb app].
  all: cbn [In app]; rewrite ?in_app_iff, ?In_put_if; cbn [In].
  all: split; [intros H | intros (Ht & url & Hu & Hp)]; try congruence.
  all: split_all; try discriminate; try congruence.
  all: try (split; [discriminate | eexists; split; [reflexivity | assumption]]).
  all: try tauto.
Qed.

Lemma artwork_last (mime : string) (p_meta : option vlc_meta_t) (url : string) :
  resolved_title p_meta <> None ->
  meta_entry p_meta vlc_meta_ArtworkURL = Some url ->
  String.prefix "http" url = true ->
  exists pre,
    GetMedia_metadata mime p_meta
    = pre ++ [ Lit ("," ++ quoted "images" ++ ":[{" ++ quoted "url" ++ ":" ++ dq);
               Str url; Lit (dq ++ "}]"); Lit "}," ].
Proof.
  intros Ht Hu Hp. destruct (resolved_title p_meta) as [title|] eqn:Et; [|congruence].
  unfold GetMedia_metadata, meta_entry, resolved_title, vlc_meta_Get in *.
  destruct p_meta as [p|]; [|discriminate].
  rewrite Hu, http_prefix, Hp.
  destruct (p vlc_meta_Title) as [t|];
    [| destruct (p vlc_meta_NowPlaying) as [t|];
       [| destruct (p vlc_meta_ESNowPlaying) as [t|]; [|discriminate]]].
  all: match goal with
       | |- exists pre, ?a ++ ?b ++ _ ++ _ = _ =>
           exists (a ++ b); rewrite <- app_assoc; reflexivity
       end.
Qed.

Lemma GetMedia_split (i_port : Z) (mime : string) (p_meta : option vlc_meta_t) :
  GetMedia print_float this i_port mime p_meta
  = (str print_float (GetMedia_metadata mime p_meta)
     ++ stream_fields (m_serverIp this) i_port mime)%string.
Proof.
  unfold GetMedia, GetMedia_ss. rewrite str_app. f_equal.
  unfold stream_fields, quoted. cbn [str print List.fold_right].
  rewrite !append_empty_r, !append_assoc. cbn [append]. rewrite ?append_assoc.
  reflexivity.
Qed.

Lemma GetMedia_verbatim (i_port : Z) (mime : string) (m : vlc_meta_t) (title artist : string) :
  String.prefix "audio" mime = true ->
  m vlc_meta_Title = Some title ->
  m vlc_meta_Artist = Some artist ->
  let forged := (title ++ dq ++ "," ++ quoted "artist" ++ ":" ++ dq ++ artist)%string in
  GetMedia print_float this i_port mime (Some m)
  = GetMedia print_float this i_port mime
      (Some (with_entry (with_entry m vlc_meta_Artist None) vlc_meta_Title
               (Some forged))).
Proof.
  intros Hmime Ht Ha. cbv zeta. rewrite !GetMedia_split. f_equal.
  unfold GetMedia_metadata, vlc_meta_Get. rewrite b_music_prefix, Hmime.
  cbn [with_entry meta_type_eqb]. rewrite Ht, Ha. cbn [is_set andb put_if].
  rewrite !str_app. cbn [str print List.fold_right app].
  rewrite ?append_empty_r, ?append_assoc. cbn [append].
  rewrite ?append_assoc. reflexivity.
Qed.

End Descriptor.

(* ================================================================== *)
(** * The shape of a call *)
(* ================================================================== *)

Lemma buildMessage_binary (ns payload dest : string) (s : ChromecastCommunication) :
  buildMessage ns payload dest CastMessage_PayloadType_BINARY s
  = (Done tt, after_send (binary_message ns payload dest) s).
Proof.
  unfold buildMessage, bind. cbn [PayloadType_eqb PayloadType_value Z.eqb].
  fold (binary_message ns payload dest).
  destruct (sendMessage_done (binary_message ns payload dest) s) as [rc ->].
  reflexivity.
Qed.

Lemma same_session_refl (s : ChromecastCommunication) : same_session s s.
Proof. repeat split. Qed.

Section Shapes.

Variable NDEBUG : bool.
Variable print_float : float -> string.

Lemma push_shape (dest : string) (ss : stringstream) (s s1 : ChromecastCommunication) :
  same_session s s1 ->
  call_shape NDEBUG s (pushMediaPlayerMessage NDEBUG print_float dest ss s1).
Proof.
  intros Hs. rewrite pushMediaPlayerMessage_run.
  destruct NDEBUG eqn:En; cbn [orb].
  - right. right. eexists _, s1. split; [reflexivity|]. split; [|exact Hs].
    do 4 right. eexists _, dest. split; [reflexivity | discriminate].
  - destruct (String.eqb_spec dest "") as [E|E]; cbn [negb].
    + left. repeat split; apply Hs.
    + right. right. eexists _, s1. split; [reflexivity|]. split; [|exact Hs].
      do 4 right. eexists _, dest. split; [reflexivity | intros _; exact E].
Qed.

Lemma assert_shape (b : bool) (k : M unit) (s : ChromecastCommunication) :
  call_shape NDEBUG s (k s) ->
  call_shape NDEBUG s ((assert_ NDEBUG b ;;; k) s).
Proof.
  intros H. unfold bind, assert_. destruct NDEBUG eqn:En; cbn [orb]; [exact H|].
  destruct b; [exact H|]. left. repeat split.
Qed.

Lemma text_shape (ns payload dest : string) (s s1 : ChromecastCommunication) :
  same_session s s1 ->
  built_by_client NDEBUG (text_message ns payload dest) ->
  call_shape NDEBUG s
    (buildMessage ns payload dest CastMessage_PayloadType_STRING s1).
Proof.
  intros Hs Hb. rewrite buildMessage_text. right. right.
  eexists _, s1. split; [reflexivity|]. split; assumption.
Qed.

Lemma call_shape_holds (c : command) (s : ChromecastCommunication) :
  call_shape NDEBUG s (call NDEBUG print_float c s).
Proof.
  pose proof (same_session_refl s) as Hs.
  assert (Hm : forall n, same_session s (set_requestId n s)) by (intros n; repeat split).
  assert (Hr : forall n, same_session s (set_receiver_requestId n s))
    by (intros n; repeat split).
  destruct c; cbn [call].
  - unfold msgAuth. rewrite buildMessage_binary. right. right.
    eexists _, s. split; [reflexivity|]. split; [left; reflexivity | exact Hs].
  - unfold msgPing. apply text_shape; [exact Hs|].
    right. left. eexists. reflexivity.
  - unfold msgPong. apply text_shape; [exact Hs|].
    right. left. eexists. reflexivity.
  - unfold msgConnect. apply text_shape; [exact Hs|].
    do 3 right. left. eexists _, _. reflexivity.
  - unfold msgReceiverClose. apply text_shape; [exact Hs|].
    do 3 right. left. eexists _, _. reflexivity.
  - unfold msgReceiverGetStatus, bind at 1, next_receiver_requestId.
    apply text_shape; [apply Hr|]. do 2 right. left. eexists. reflexivity.
  - unfold msgReceiverLaunchApp, bind at 1, next_receiver_requestId.
    apply text_shape; [apply Hr|]. do 2 right. left. eexists. reflexivity.
  - unfold msgPlayerGetStatus, bind at 1, next_requestId. apply push_shape, Hm.
  - unfold msgPlayerLoad, bind at 1, get, bind at 1, next_requestId.
    apply push_shape, Hm.
  - unfold msgPlayerPlay. apply assert_shape.
    unfold bind at 1, next_requestId. apply push_shape, Hm.
  - unfold msgPlayerStop. apply assert_shape.
    unfold bind at 1, next_requestId. apply push_shape, Hm.
  - unfold msgPlayerPause. apply assert_shape.
    unfold bind at 1, next_requestId. apply push_shape, Hm.
  - unfold msgPlayerSetVolume. apply assert_shape.
    destruct (volume_refused f_volume); [right; left; reflexivity|].
    unfold bind at 1, next_requestId. apply push_shape, Hm.
  - unfold msgPlayerSeek. apply assert_shape.
    unfold bind at 1, next_requestId. apply push_shape, Hm.
Qed.

End Shapes.

Section Built.

Variable NDEBUG : bool.
Variable print_float : float -> string.

(** What a run hands to [sendMessage]. *)
Lemma run_built (cs : list command) :
  forall s : ChromecastCommunication,
    exists new,
      sent (snd (run NDEBUG print_float cs s)) = sent s ++ new
      /\ Forall (built_by_client NDEBUG) new.
Proof.
  induction cs as [|c cs IH]; intros s.
  - exists []. rewrite app_nil_r. split; [reflexivity | constructor].
  - cbn [run]. unfold bind.
    destruct (call_shape_holds NDEBUG print_float c s)
      as [(_ & Hf & _ & _ & Hsent) | [-> | (m & s1 & -> & Hb & _ & _ & Hsent)]].
    + destruct (call NDEBUG print_float c s) as [[[]|] s1]; [discriminate Hf|].
      exists []. rewrite app_nil_r. split; [exact Hsent | constructor].
    + apply IH.
    + destruct (IH (after_send m s1)) as (new & Hnew & Hall).
      exists (m :: new). rewrite Hnew, after_send_sent, Hsent, <- app_assoc.
      split; [reflexivity | constructor; assumption].
Qed.

Lemma built_well_formed (m : CastMessage) : built_by_client NDEBUG m -> well_formed m.
Proof.
  intros [-> | [(p & ->) | [(p & ->) | [(p & d & ->) | (p & d & -> & _)]]]];
    unfold well_formed; cbn [protocol_version namespace_ payload_type payload_utf8
      payload_binary destination_id text_message binary_message].
  all: split; [reflexivity|]. 
  all: split; [cbn [In]; tauto|].
  all: split; [vm_compute; repeat split; discriminate|].
  all: try (intros _; reflexivity).
  all: intros [H|[H|[H|[]]]]; discriminate H.
Qed.

End Built.

Lemma after_send_refused (m : CastMessage) (s : ChromecastCommunication) :
  hd true (heap_script s) = false -> m_tls (after_send m s) = m_tls s.
Proof.
  intros H. unfold after_send. rewrite sendMessage_run, H. reflexivity.
Qed.

Lemma after_send_nominal (m : CastMessage) (s : ChromecastCommunication) :
  heap_script s = [] -> tls_write_script (m_tls s) = [] ->
  heap_script (after_send m s) = []
  /\ tls_write_script (m_tls (after_send m s)) = []
  /\ wire (m_tls (after_send m s)) = wire (m_tls s) ++ handed m.
Proof.
  intros Hh Hw. unfold after_send. rewrite sendMessage_run, Hh.
  cbn [hd]. cbv zeta. rewrite Hw.
  cbn [snd heap_script m_tls tls_write_script List.tl write_result].
  rewrite wire_app. repeat split. f_equal. apply firstn_all2. unfold blen. lia.
Qed.

Section Nominal.

Variable NDEBUG : bool.
Variable print_float : float -> string.

(** On a session that lets every write through, and while every buffer is
    allocated, a run writes the buffers of its messages, one after the
    other. *)
Lemma run_wire (cs : list command) :
  forall s : ChromecastCommunication,
    heap_script s = [] -> tls_write_script (m_tls s) = [] ->
    exists new,
      sent (snd (run NDEBUG print_float cs s)) = sent s ++ new
      /\ wire (m_tls (snd (run NDEBUG print_float cs s)))
         = wire (m_tls s) ++ flat_map handed new.
Proof.
  induction cs as [|c cs IH]; intros s Hh Hw.
  - exists []. cbn. rewrite !app_nil_r. split; reflexivity.
  - cbn [run]. unfold bind.
    destruct (call_shape_holds NDEBUG print_float c s)
      as [(_ & Hf & Htls & _ & Hsent)
         | [-> | (m & s1 & -> & _ & Htls & Hh1 & Hsent)]].
    + destruct (call NDEBUG print_float c s) as [[[]|] s1]; [discriminate Hf|].
      exists []. cbn [snd fst] in *. rewrite !app_nil_r, Htls.
      split; [exact Hsent | reflexivity].
    + apply IH; assumption.
    + rewrite <- Hh1 in Hh. rewrite <- Htls in Hw.
      destruct (after_send_nominal m s1 Hh Hw) as (Hh' & Hw' & Hwire).
      destruct (IH (after_send m s1) Hh' Hw') as (new & Hnew & Hall).
      exists (m :: new). rewrite Hnew, Hall, Hwire, after_send_sent, Hsent, Htls.
      cbn [flat_map]. rewrite <- !app_assoc. split; reflexivity.
Qed.

End Nominal.

Lemma flat_map_handed (new : list CastMessage) :
  Forall (fun m => ByteSize m <= INT_MAX - PACKET_HEADER_LEN) new ->
  flat_map handed new = flat_map frame new.
Proof.
  intros H. induction H as [|m new Hm _ IH]; [reflexivity|].
  cbn [flat_map]. rewrite IH, (handed_frame m Hm). reflexivity.
Qed.

(** A call stops at an assertion exactly when it is misused in a build
    that has assertions. *)
Section Stops.

Variable NDEBUG : bool.
Variable print_float : float -> string.

Lemma push_stops (dest : string) (ss : stringstream) (s : ChromecastCommunication) :
  fst (pushMediaPlayerMessage NDEBUG print_float dest ss s) = Aborted
  <-> NDEBUG = false /\ String.eqb dest "" = true.
Proof.
  rewrite pushMediaPlayerMessage_run.
  destruct NDEBUG, (String.eqb dest ""); cbn; intuition discriminate.
Qed.

Lemma assert_stops (b : bool) (k : M unit) (s : ChromecastCommunication) :
  fst ((assert_ NDEBUG b ;;; k) s) = Aborted
  <-> (NDEBUG = false /\ b = false) \/ fst (k s) = Aborted.
Proof.
  unfold bind, assert_. destruct NDEBUG, b; cbn [orb fst]; intuition discriminate.
Qed.

Lemma call_stops (c : command) (s : ChromecastCommunication) :
  fst (call NDEBUG print_float c s) = Aborted
  <-> NDEBUG = false /\ misused c = true.
Proof.
  unfold misused.
  destruct c; cbn [call mediaSessionId_of media_destination media_scope orb andb];
    unfold msgAuth, msgPing, msgPong, msgConnect, msgReceiverClose,
      msgReceiverGetStatus, msgReceiverLaunchApp, msgPlayerGetStatus, msgPlayerLoad,
      msgPlayerPlay, msgPlayerStop, msgPlayerPause, msgPlayerSetVolume, msgPlayerSeek.
  1: rewrite buildMessage_binary; cbn [fst];
    (split; [discriminate | intros [_ H]; discriminate H]).
  1-4: rewrite buildMessage_text; cbn [fst];
    (split; [discriminate | intros [_ H]; discriminate H]).
  1-2: unfold bind at 1, next_receiver_requestId; rewrite buildMessage_text;
    cbn [fst]; (split; [discriminate | intros [_ H]; discriminate H]).
  1: unfold bind at 1, next_requestId; apply push_stops.
  1: unfold bind at 1, get, bind at 1, next_requestId; apply push_stops.
  all: rewrite assert_stops.
  all: try (destruct (volume_refused f_volume); cbn [negb andb fst ret]).
  all: try (unfold bind at 1, next_requestId; rewrite push_stops).
  all: destruct (mediaSessionId =? 0), (String.eqb destinationId "");
    cbn [negb orb]; intuition (try discriminate; try congruence).
Qed.

End Stops.

(* ================================================================== *)
(** * The read loop on any cut of the stream *)
(* ================================================================== *)

Lemma delivered_requeue (left : list byte) (evs : list readv_event) :
  delivered (requeue left evs) = left ++ delivered evs.
Proof. destruct left; reflexivity. Qed.

Lemma lively_requeue (left : list byte) (evs : list readv_event) :
  lively evs -> lively (requeue left evs).
Proof. destruct left; cbn; [tauto|]. intros H. split; [discriminate | exact H]. Qed.

Section Stream.

Variable NDEBUG : bool.

(** No byte is lost and none is read twice: the buffer and what the
    session still delivers make up what there was. *)
Lemma receive_loop_conserves (evs : list readv_event) :
  forall (i_size i_received : Z) (p_data : list byte) (pb_timeout : bool)
         (ret : Z) (flag : bool) (data : list byte) (evs' : list readv_event),
    receive_loop NDEBUG evs i_size i_received p_data pb_timeout
    = (Done (ret, flag, data), evs') ->
    data ++ delivered evs' = p_data ++ delivered evs
    /\ (pb_timeout = true -> flag = true).
Proof.
  induction evs as [|[bs|errno val revents] evs IH];
    intros i_size i_received p_data pb_timeout ret flag data evs'; cbn [receive_loop].
  - intros [= <- <- <- <-]. split; [reflexivity | tauto].
  - pose proof (firstn_skipn (Z.to_nat i_size) bs) as Hbs.
    pose proof (blen_firstn i_size bs) as Hlen.
    set (got := firstn (Z.to_nat i_size) bs) in *.
    set (left := skipn (Z.to_nat i_size) bs) in *.
    destruct (Z.eqb_spec (blen got) 0) as [E|E].
    + intros [= <- <- <- <-]. rewrite delivered_requeue. cbn [delivered].
      assert (got = []) as Hnil by (destruct got; [reflexivity | discriminate E]).
      rewrite <- Hbs, Hnil. split; [reflexivity | tauto].
    + destruct (negb (NDEBUG || (blen got <=? i_size))); [discriminate|].
      destruct (Z.ltb_spec 0 (i_size - blen got)) as [Hmore|Hfull].
      * intros H. apply IH in H. destruct H as [H Hflag]. split; [|exact Hflag].
        rewrite H, <- app_assoc. cbn [delivered]. do 2 f_equal.
        assert (left = []) as Hnil.
        { unfold left. apply skipn_all2. unfold got, blen in Hmore.
          rewrite length_firstn in Hmore. lia. }
        rewrite <- Hbs, Hnil, app_nil_r. reflexivity.
      * intros [= <- <- <- <-]. rewrite delivered_requeue, <- app_assoc.
        cbn [delivered]. rewrite (app_assoc got), Hbs. split; [reflexivity | tauto].
  - cbn [delivered].
    destruct (negb (errno =? EAGAIN)); [intros [= <- <- <- <-]; split; [reflexivity | tauto]|].
    destruct (val <? 0); [intros [= <- <- <- <-]; split; [reflexivity | tauto]|].
    destruct (val =? 0); [intros [= <- <- <- <-]; split; [reflexivity | tauto]|].
    destruct (negb (NDEBUG || negb (Z.land revents POLLIN =? 0))); [discriminate|].
    destruct (0 <? i_size); [apply IH|].
    intros [= <- <- <- <-]. split; [reflexivity | tauto].
Qed.

(** On lively events that deliver enough, the loop reads the bytes asked
    for wherever the reads cut the stream. *)
Lemma receive_loop_exact (evs : list readv_event) :
  forall (i_size i_received : Z) (p_data : list byte) (pb_timeout : bool),
    lively evs -> 0 < i_size -> i_size <= blen (delivered evs) ->
    exists evs',
      receive_loop NDEBUG evs i_size i_received p_data pb_timeout
      = (Done (i_received + i_size, pb_timeout,
               p_data ++ firstn (Z.to_nat i_size) (delivered evs)), evs')
      /\ lively evs'
      /\ delivered evs' = skipn (Z.to_nat i_size) (delivered evs).
Proof.
  induction evs as [|[bs|errno val revents] evs IH];
    intros i_size i_received p_data pb_timeout Hl Hsz Hlen.
  - cbn in Hlen. lia.
  - destruct Hl as [Hne Hl]. cbn [receive_loop delivered] in *.
    rewrite blen_app in Hlen.
    assert (Hpos : 0 < blen bs).
    { destruct bs; [congruence|]. unfold blen. cbn [List.length]. lia. }
    destruct (Z.le_gt_cases i_size (blen bs)) as [Hfit|Hshort].
    + (* this read fills the buffer *)
      assert (Hgot : blen (firstn (Z.to_nat i_size) bs) = i_size)
        by (unfold blen in *; rewrite length_firstn; lia).
      rewrite Hgot.
      destruct (Z.eqb_spec i_size 0) as [E|_]; [lia|].
      rewrite Z.leb_refl, orb_true_r. cbn [negb].
      rewrite Z.sub_diag. cbn [Z.ltb Z.compare].
      eexists. split; [|split].
      * rewrite firstn_app.
        replace (Z.to_nat i_size - List.length bs)%nat with 0%nat
          by (unfold blen in *; lia).
        cbn [firstn]. rewrite app_nil_r. reflexivity.
      * apply lively_requeue. exact Hl.
      * rewrite delivered_requeue, skipn_app.
        replace (Z.to_nat i_size - List.length bs)%nat with 0%nat
          by (unfold blen in *; lia).
        reflexivity.
    + (* the read is short: the loop goes on *)
      assert (Hall : firstn (Z.to_nat i_size) bs = bs)
        by (apply firstn_all2; unfold blen in *; lia).
      rewrite Hall.
      destruct (Z.eqb_spec (blen bs) 0) as [E|_]; [lia|].
      destruct (Z.leb_spec (blen bs) i_size) as [_|E]; [|lia].
      rewrite orb_true_r. cbn [negb].
      destruct (Z.ltb_spec 0 (i_size - blen bs)) as [_|E]; [|lia].
      destruct (IH (i_size - blen bs) (i_received + blen bs) (p_data ++ bs) pb_timeout
                  Hl ltac:(lia) ltac:(lia)) as (evs' & -> & Hl' & Hd').
      exists evs'. split; [|split; [exact Hl'|]].
      * rewrite <- app_assoc, firstn_app, Hall.
        replace (Z.to_nat i_size - List.length bs)%nat
          with (Z.to_nat (i_size - blen bs)) by (unfold blen; lia).
        replace (i_received + blen bs + (i_size - blen bs))
          with (i_received + i_size) by lia.
        reflexivity.
      * rewrite Hd', skipn_app.
        rewrite (skipn_all2 bs) by (unfold blen in *; lia). cbn [app].
        f_equal. unfold blen. lia.
  - destruct Hl as (-> & Hval & Hin & Hl). cbn [receive_loop delivered] in *.
    cbn [Z.eqb EAGAIN Pos.eqb negb].
    destruct (Z.ltb_spec val 0) as [E|_]; [lia|].
    destruct (Z.eqb_spec val 0) as [E|_]; [lia|].
    destruct (Z.eqb_spec (Z.land revents POLLIN) 0) as [E|_]; [contradiction|].
    cbn [negb]. rewrite orb_true_r. cbn [negb].
    destruct (Z.ltb_spec 0 i_size) as [_|E]; [|lia].
    apply IH; assumption.
Qed.

End Stream.

Lemma receive_exact (NDEBUG : bool) (i_size i_timeout : Z) (pb_timeout : bool)
    (s : ChromecastCommunication) :
  lively (tls_read_script (m_tls s)) ->
  0 < i_size ->
  i_size <= blen (incoming s) ->
  exists s',
    receive NDEBUG i_size i_timeout pb_timeout s
    = (Done (i_size, pb_timeout, firstn (Z.to_nat i_size) (incoming s)), s')
    /\ lively (tls_read_script (m_tls s'))
    /\ incoming s' = skipn (Z.to_nat i_size) (incoming s).
Proof.
  intros Hl Hsz Hlen. unfold receive, incoming in *.
  destruct (receive_loop_exact NDEBUG (tls_read_script (m_tls s)) i_size 0 []
              pb_timeout Hl Hsz Hlen) as (evs' & -> & Hl' & Hd').
  eexists. split; [reflexivity|]. cbn [m_tls set_tls tls_read_script].
  split; assumption.
Qed.

Lemma ByteSize_pos (m : CastMessage) : 0 < ByteSize m.
Proof.
  unfold ByteSize.
  pose proof (StringSize_bound (source_id m)).
  pose proof (StringSize_bound (destination_id m)).
  pose proof (StringSize_bound (namespace_ m)).
  pose proof (opt_size_nonneg (payload_utf8 m)).
  pose proof (opt_size_nonneg (payload_binary m)).
  rewrite !VarintSize_length. unfold size, blen in *. lia.
Qed.

(* ================================================================== *)
(** * The counters beyond their range *)
(* ================================================================== *)

Lemma ids_from_wrap (n : nat) :
  forall a : Z,
    ids_from (to_uint32 a) n
    = List.map (fun i => to_uint32 (a + Z.of_nat i)) (List.seq 0 n).
Proof.
  induction n as [|n IH]; intros a; [reflexivity|].
  cbn [ids_from List.seq List.map]. f_equal; [f_equal; lia|].
  replace (to_uint32 (to_uint32 a + 1)) with (to_uint32 (a + 1))
    by (unfold to_uint32; rewrite Z.add_mod_idemp_l by lia; reflexivity).
  rewrite IH, <- seq_shift, map_map. apply map_ext. intros i. f_equal. lia.
Qed.

(* ================================================================== *)
(** * Construction and teardown *)
(* ================================================================== *)

Lemma total_app (gain : Lifetime.core_call -> Z) (a b : list Lifetime.core_call) :
  Lifetime.total gain (a ++ b) = Lifetime.total gain a + Lifetime.total gain b.
Proof.
  induction a as [|c a IH]; cbn [app Lifetime.total]; [reflexivity|].
  rewrite IH. lia.
Qed.

Lemma disconnect_twice (this : Lifetime.object) (core : Lifetime.vlc_core) :
  let (this', core') := Lifetime.disconnect this core in
  Lifetime.m_tls this' = None /\ Lifetime.disconnect this' core' = (this', core').
Proof.
  unfold Lifetime.disconnect. destruct (Lifetime.m_tls this) eqn:E.
  - cbn. split; reflexivity.
  - rewrite E. split; reflexivity.
Qed.

Lemma disconnects_disconnected (n : nat) (this : Lifetime.object)
    (core : Lifetime.vlc_core) :
  Lifetime.m_tls this = None -> Lifetime.disconnects n this core = (this, core).
Proof.
  intros E. induction n as [|n IH]; [reflexivity|].
  cbn [Lifetime.disconnects]. unfold Lifetime.disconnect. rewrite E. exact IH.
Qed.

(** Disconnecting any number of times and destroying the object comes to
    disconnecting once. *)
Lemma teardown_once (n : nat) (this : Lifetime.object) (core : Lifetime.vlc_core) :
  (let (this', core') := Lifetime.disconnects n this core in
   Lifetime.destructor this' core')
  = snd (Lifetime.disconnect this core).
Proof.
  destruct n as [|n]; [reflexivity|]. cbn [Lifetime.disconnects].
  pose proof (disconnect_twice this core) as H.
  destruct (Lifetime.disconnect this core) as [this' core']. destruct H as [E H].
  rewrite (disconnects_disconnected n this' core' E).
  unfold Lifetime.destructor. rewrite H. reflexivity.
Qed.

(** The constructor in one equation, by what the core answers. *)
Lemma constructor_run (core : Lifetime.vlc_core) (targetIP : string) (devicePort : Z) :
  let port := if devicePort =? 0 then CHROMECAST_CONTROL_PORT else devicePort in
  let after (l : list Lifetime.core_call) :=
    Lifetime.mk_core (Lifetime.credentials core) (Lifetime.listening core)
      (Lifetime.local_address core) (Lifetime.calls core ++ l) in
  Lifetime.constructor core targetIP devicePort
  = if Lifetime.credentials core then
      match Lifetime.listening core targetIP port with
      | Some tls =>
          match Lifetime.local_address core with
          | Some ip =>
              (Lifetime.Constructed (Lifetime.mk_object (Some tt) (Some tls) 0 0 ip),
               after [ Lifetime.ClientCreate true;
                       Lifetime.SocketOpenTLS targetIP port true;
                       Lifetime.GetSockAddress true ])
          | None =>
              (Lifetime.Thrown "Cannot get local IP address",
               after [ Lifetime.ClientCreate true;
                       Lifetime.SocketOpenTLS targetIP port true;
                       Lifetime.GetSockAddress false ])
          end
      | None =>
          (Lifetime.Thrown "Failed to create client session",
           after [ Lifetime.ClientCreate true;
                   Lifetime.SocketOpenTLS targetIP port false; Lifetime.Delete ])
      end
    else
      (Lifetime.Thrown "Failed to create TLS client",
       after [ Lifetime.ClientCreate false ]).
Proof.
  cbv zeta. unfold Lifetime.constructor, Lifetime.log.
  destruct (Lifetime.credentials core);
    cbn [Lifetime.is_some Lifetime.listening Lifetime.local_address
         Lifetime.credentials Lifetime.calls]; [|reflexivity].
  destruct (Lifetime.listening core targetIP _);
    cbn [Lifetime.is_some Lifetime.calls]; rewrite <- ?app_assoc; [|reflexivity].
  destruct (Lifetime.local_address core); rewrite <- ?app_assoc; reflexivity.
Qed.

Lemma holds_more_after (core : Lifetime.vlc_core) (l : list Lifetime.core_call)
    (n : Z) :
  Lifetime.total Lifetime.credentials_gain l = n ->
  Lifetime.total Lifetime.sessions_gain l = n ->
  Lifetime.holds_more core
    (Lifetime.mk_core (Lifetime.credentials core) (Lifetime.listening core)
       (Lifetime.local_address core) (Lifetime.calls core ++ l)) n.
Proof.
  intros Hc Hs.
  unfold Lifetime.holds_more, Lifetime.credentials_held, Lifetime.sessions_open.
  cbn [Lifetime.calls]. rewrite !total_app, Hc, Hs. split; reflexivity.
Qed.

(* ================================================================== *)
(** * The properties of the specification *)
(* ================================================================== *)

(** C1.  Whenever [sendMessage] hands a buffer to the session, the buffer
    is a frame of the message: four bytes, then the serialized envelope,
    and the four bytes read big-endian give the byte-length of that
    serialized envelope.  One such buffer is handed over when the
    allocation succeeds, none otherwise.  The size of the frame, the four
    bytes and the envelope, is an [int]: the sum that [sendMessage] computes
    does not overflow. *)
Theorem sendMessage_emits_frame (msg : CastMessage) (s : ChromecastCommunication) :
  ByteSize msg <= INT_MAX - PACKET_HEADER_LEN ->
  exists new,
    emitted (snd (sendMessage msg s)) = emitted s ++ new
    /\ Forall (frame_of (Serialize msg)) new
    /\ (hd true (heap_script s) = true -> List.length new = 1%nat).
Proof.
  intros Hsz. rewrite sendMessage_run.
  destruct (hd true (heap_script s)); cbn [snd].
  - exists [frame msg]. rewrite (handed_frame msg Hsz).
    unfold emitted. cbn [m_tls tls_written].
    rewrite map_app. cbn [List.map fst].
    repeat split. constructor; [apply frame_is_frame | constructor].
    unfold PACKET_HEADER_LEN in Hsz. lia.
  - exists []. unfold emitted. cbn [m_tls]. rewrite app_nil_r.
    repeat split; [constructor | discriminate].
Qed.

Lemma sendMessage_emits_frame_witness :
  ByteSize PING_envelope <= INT_MAX - PACKET_HEADER_LEN
  /\ exists new,
       emitted (snd (sendMessage PING_envelope idle)) = emitted idle ++ new
       /\ Forall (frame_of (Serialize PING_envelope)) new
       /\ (hd true (heap_script idle) = true -> List.length new = 1%nat).
Proof.
  split; [vm_compute; discriminate|].
  apply (sendMessage_emits_frame PING_envelope idle). vm_compute. discriminate.
Defined.

(** C2, as the code has it.  Sending the PING envelope of the example from
    a fresh client hands one frame to the session; its first four bytes are
    the big-endian length of the serialized envelope, 84 bytes, and not of
    the JSON text, 15 bytes; the bytes after them parse back to the envelope
    with the same namespace, source, destination, payload type and
    payload. *)
Theorem PING_frame :
  exists buf,
    emitted (snd (sendMessage PING_envelope idle)) = [buf]
    /\ firstn 4 buf = SetDWBE (blen (Serialize PING_envelope))
    /\ blen (Serialize PING_envelope) = 84
    /\ size PING_payload = 15
    /\ ParseFromArray (skipn 4 buf) = Some PING_envelope.
Proof.
  eexists. split; [vm_compute; reflexivity|].
  repeat split; vm_compute; reflexivity.
Qed.

(** C2 as stated fails: the first four bytes of the frame are not the
    big-endian length of the JSON payload. *)
Lemma PING_prefix_is_not_payload_length :
  ~ (exists buf,
       emitted (snd (sendMessage PING_envelope idle)) = [buf]
       /\ firstn 4 buf = SetDWBE (size PING_payload)
       /\ ParseFromArray (skipn 4 buf) = Some PING_envelope).
Proof.
  intros (buf & Hbuf & Hlen & _).
  vm_compute in Hbuf. injection Hbuf as <-.
  vm_compute in Hlen. discriminate Hlen.
Qed.

(** C3, as the code has it.  Both counters start at 0, and whatever the interleaving of the
    calls of a run that returns, the messages of the receiver scope carry
    the request ids 0 .. N-1 in the order they were sent, and those of the
    media-player scope the ids 0 .. M-1, N and M being the numbers of calls
    of either scope that put a message together.  The counters are
    [unsigned]: N and M are at most 2^32. *)
Theorem request_ids_per_scope (NDEBUG : bool) (print_float : float -> string)
    (cs : list command) (tls : vlc_tls_t) (localIP : string) (heap : list bool)
    (s' : ChromecastCommunication) :
  run NDEBUG print_float cs (constructed tls localIP heap) = (Done tt, s') ->
  Z.of_nat (count receiver_scope cs) <= 2 ^ 32 ->
  Z.of_nat (count media_scope cs) <= 2 ^ 32 ->
  m_receiver_requestId (constructed tls localIP heap) = 0
  /\ m_requestId (constructed tls localIP heap) = 0
  /\ Forall2 carries_requestId
       (List.filter (in_namespace NAMESPACE_RECEIVER) (sent s'))
       (first_ids (count receiver_scope cs))
  /\ Forall2 carries_requestId
       (List.filter (in_namespace NAMESPACE_MEDIA) (sent s'))
       (first_ids (count media_scope cs)).
Proof.
  intros Hrun Hn Hm. split; [reflexivity|]. split; [reflexivity|].
  apply run_ids in Hrun as (new & Hsent & Hr & Hmd).
  cbn [constructed sent m_receiver_requestId m_requestId app] in *.
  rewrite Hsent. rewrite <- !ids_from_0 by assumption. split; assumption.
Qed.

Lemma request_ids_per_scope_witness :
  run false print_sample interleaved idle
  = (Done tt, snd (run false print_sample interleaved idle))
  /\ count receiver_scope interleaved = 3%nat
  /\ count media_scope interleaved = 4%nat
  /\ Forall2 carries_requestId
       (List.filter (in_namespace NAMESPACE_RECEIVER)
          (sent (snd (run false print_sample interleaved idle))))
       (first_ids 3)
  /\ Forall2 carries_requestId
       (List.filter (in_namespace NAMESPACE_MEDIA)
          (sent (snd (run false print_sample interleaved idle))))
       (first_ids 4).
Proof.
  split; [vm_compute; reflexivity|].
  split; [reflexivity|]. split; [reflexivity|].
  apply (request_ids_per_scope false print_sample interleaved fresh_tls
           "192.168.1.2" [] (snd (run false print_sample interleaved idle))).
  - vm_compute. reflexivity.
  - vm_compute. discriminate.
  - vm_compute. discriminate.
Defined.

(** C3 as stated fails when M counts the commands of the media-player
    scope that were issued: a SET_VOLUME whose volume is refused is one of
    them, sends no message and takes no id.  Of three such commands, all
    of which return, two send a message, and the ids are 0 and 1, not
    0, 1 and 2. *)
Lemma refused_volume_takes_no_id :
  let s' := snd (run false print_sample dropped_between idle) in
  run false print_sample dropped_between idle = (Done tt, s')
  /\ count (media_player_command) dropped_between = 3%nat
  /\ Forall2 carries_requestId
       (List.filter (in_namespace NAMESPACE_MEDIA) (sent s')) (first_ids 2)
  /\ ~ Forall2 carries_requestId
         (List.filter (in_namespace NAMESPACE_MEDIA) (sent s')) (first_ids 3).
Proof.
  cbv zeta. split; [vm_compute; reflexivity|]. split; [reflexivity|]. split.
  - assert (Hrun : run false print_sample dropped_between idle
                   = (Done tt, snd (run false print_sample dropped_between idle)))
      by (vm_compute; reflexivity).
    apply run_ids in Hrun. destruct Hrun as (new & Hsent & _ & Hm).
    cbn [idle constructed sent m_requestId app] in Hsent, Hm.
    rewrite Hsent. exact Hm.
  - intros H. apply Forall2_length in H. vm_compute in H. discriminate H.
Qed.

(** What [msgPlayerSetVolume] does with a volume that compares with the
    bounds.  Called with a session id other than 0 and a
    destination that is not empty (or in a build without assertions),
    [msgPlayerSetVolume] puts a SET_VOLUME message together for every
    volume from 0.0 to 1.0 and hands it to [sendMessage], which passes its
    frame to the session when it gets its buffer; for every volume below
    0.0 or above 1.0 it returns at once: no message, and the same state. *)
Theorem set_volume_policy (NDEBUG : bool) (print_float : float -> string)
    (dest : string) (mediaSessionId : Z) (f_volume : float) (b_mute : bool)
    (s : ChromecastCommunication) :
  NDEBUG = true \/ (mediaSessionId <> 0 /\ dest <> ""%string) ->
  ((0 <=? f_volume)%float = true /\ (f_volume <=? 1)%float = true ->
   exists s' m rest,
     msgPlayerSetVolume NDEBUG print_float dest mediaSessionId f_volume b_mute s
     = (Done tt, s')
     /\ sent s' = sent s ++ [m]
     /\ namespace_ m = NAMESPACE_MEDIA
     /\ destination_id m = dest
     /\ payload_utf8 m
        = Some (("{" ++ quoted "type" ++ ":" ++ quoted "SET_VOLUME" ++ ",") ++ rest)%string
     /\ (hd true (heap_script s) = true -> emitted s' = emitted s ++ [handed m]))
  /\ ((f_volume <? 0)%float = true \/ (1 <? f_volume)%float = true ->
      msgPlayerSetVolume NDEBUG print_float dest mediaSessionId f_volume b_mute s
      = (Done tt, s)).
Proof.
  intros Hpre.
  assert (Hid : NDEBUG || negb (mediaSessionId =? 0) = true).
  { destruct Hpre as [-> | [Hid _]]; [reflexivity|].
    apply Z.eqb_neq in Hid. rewrite Hid. apply orb_true_r. }
  assert (Hdest : NDEBUG || negb (String.eqb dest "") = true).
  { destruct Hpre as [-> | [_ Hd]]; [reflexivity|].
    apply String.eqb_neq in Hd. rewrite Hd. apply orb_true_r. }
  unfold msgPlayerSetVolume, bind at 1, assert_. rewrite Hid. split.
  - intros [H0 H1]. rewrite (in_range_accepted f_volume H0 H1).
    unfold bind, next_requestId. rewrite pushMediaPlayerMessage_run, Hdest.
    eexists. eexists. eexists. split; [reflexivity|].
    rewrite after_send_sent. split; [reflexivity|].
    split; [reflexivity|]. split; [reflexivity|]. split; [reflexivity|].
    intros Hheap.
    exact (after_send_emitted _ (set_requestId _ s) Hheap).
  - intros Hout. rewrite (out_of_range_refused f_volume Hout). reflexivity.
Qed.

Lemma set_volume_policy_witness :
  (7 <> 0 /\ "app"%string <> ""%string)
  /\ (exists s' m rest,
        msgPlayerSetVolume false print_sample "app" 7 0.5%float true idle = (Done tt, s')
        /\ sent s' = sent idle ++ [m]
        /\ namespace_ m = NAMESPACE_MEDIA
        /\ destination_id m = "app"%string
        /\ payload_utf8 m
           = Some (("{" ++ quoted "type" ++ ":" ++ quoted "SET_VOLUME" ++ ",") ++ rest)%string
        /\ (hd true (heap_script idle) = true -> emitted s' = emitted idle ++ [handed m]))
  /\ msgPlayerSetVolume false print_sample "app" 7 2%float true idle = (Done tt, idle).
Proof.
  assert (Hpre : 7 <> 0 /\ "app"%string <> ""%string) by (split; discriminate).
  split; [exact Hpre|]. split.
  - apply (set_volume_policy false print_sample "app" 7 0.5%float true idle (or_intror Hpre)).
    split; vm_compute; reflexivity.
  - apply (set_volume_policy false print_sample "app" 7 2%float true idle (or_intror Hpre)).
    right. vm_compute. reflexivity.
Defined.

(** C4.  The failing input: a volume that is not a number.  It is outside
    the range from 0.0 to 1.0, and the test of [msgPlayerSetVolume], which
    asks whether it is below 0.0 or above 1.0, lets it through: the call
    returns with a SET_VOLUME message sent whose level is no number, the
    frame of that message handed to the session and a request id used. *)
Lemma set_volume_nan_sent :
  ((0 <=? nan)%float && (nan <=? 1)%float = false)
  /\ volume_refused nan = false
  /\ exists s' m,
       msgPlayerSetVolume false print_sample "app" 7 nan false idle = (Done tt, s')
       /\ sent s' = [m] /\ emitted s' = [frame m]
       /\ namespace_ m = NAMESPACE_MEDIA
       /\ payload_utf8 m
          = Some ("{" ++ quoted "type" ++ ":" ++ quoted "SET_VOLUME" ++ ","
                  ++ quoted "volume" ++ ":{" ++ quoted "level" ++ ":nan,"
                  ++ quoted "muted" ++ ":false},"
                  ++ quoted "mediaSessionId" ++ ":7,"
                  ++ quoted "requestId" ++ ":0}")%string
       /\ m_requestId s' = 1.
Proof.
  split; [vm_compute; reflexivity|]. split; [vm_compute; reflexivity|].
  eexists. eexists. split; [vm_compute; reflexivity|].
  repeat split; vm_compute; reflexivity.
Qed.

(** C5, as the code has it.  In a build with assertions ([NDEBUG] not
    defined), PLAY, STOP and PAUSE for the media session 0 stop at the
    assertion on entry, before anything is built: the state is the one
    before the call, no message was handed to [sendMessage] and no frame
    to the session. *)
Theorem session_zero_asserted (print_float : float -> string) (dest : string)
    (s : ChromecastCommunication) :
  msgPlayerPlay false print_float dest 0 s = (Aborted, s)
  /\ msgPlayerStop false print_float dest 0 s = (Aborted, s)
  /\ msgPlayerPause false print_float dest 0 s = (Aborted, s).
Proof. repeat split. Qed.

(** C5 as stated fails in a build with [NDEBUG]: the assertion is compiled
    out, PLAY for the media session 0 returns, and the frame handed to the
    session holds the field [mediaSessionId] of value 0. *)
Lemma session_zero_sent_under_NDEBUG :
  exists s' buf,
    msgPlayerPlay true print_sample "app" 0 idle = (Done tt, s')
    /\ emitted s' = [buf]
    /\ contains (list_byte_of_string (quoted "mediaSessionId" ++ ":0")) buf = true.
Proof.
  eexists. eexists. split; [vm_compute; reflexivity|].
  split; vm_compute; reflexivity.
Qed.

(** C6.  When the reads so far kept the loop turning and the next one
    would block while the poll reports nothing before its deadline,
    [receive] returns the number of bytes read so far, not -1, with the
    timeout flag set: 0 when nothing had been read, the partial count
    otherwise. *)
Theorem receive_deadline (NDEBUG : bool) (i_size i_timeout : Z) (pb_timeout : bool)
    (pre rest : list readv_event) (revents : Z) (s : ChromecastCommunication) :
  tls_read_script (m_tls s) = pre ++ Readv_fail EAGAIN 0 revents :: rest ->
  keeps_reading i_size pre ->
  fst (receive NDEBUG i_size i_timeout pb_timeout s)
  = Done (blen (delivered pre), true, delivered pre)
  /\ 0 <= blen (delivered pre)
  /\ (delivered pre = [] ->
      fst (receive NDEBUG i_size i_timeout pb_timeout s) = Done (0, true, [])).
Proof.
  intros Hscript Hk.
  assert (H : fst (receive NDEBUG i_size i_timeout pb_timeout s)
              = Done (blen (delivered pre), true, delivered pre)).
  { unfold receive. rewrite Hscript, receive_loop_keeps_reading by exact Hk.
    cbn [receive_loop Z.eqb EAGAIN Pos.eqb negb Z.ltb Z.compare fst app].
    reflexivity. }
  split; [exact H|]. split; [unfold blen; lia|].
  intros E. rewrite H, E. reflexivity.
Qed.

Lemma receive_deadline_witness :
  keeps_reading 4 [Readv_data [x00; x00]]
  /\ fst (receive false 4 6000 false stalls) = Done (2, true, [x00; x00])
  /\ fst (receive false 4 6000 false idle) = Done (0, true, []).
Proof.
  assert (Hk : keeps_reading 4 [Readv_data [x00; x00]])
    by (cbn; repeat split; reflexivity).
  split; [exact Hk|]. split.
  - apply (receive_deadline false 4 6000 false [Readv_data [x00; x00]] [] 0 stalls
             eq_refl Hk).
  - reflexivity.
Defined.

(** C7.  When the reads so far kept the loop turning, so that fewer bytes
    than asked for are in the buffer, and the next read returns 0 because
    the peer closed the session, [receive] returns -1 and leaves the timeout
    flag as it was. *)
Theorem receive_orderly_close (NDEBUG : bool) (i_size i_timeout : Z)
    (pb_timeout : bool) (pre rest : list readv_event) (s : ChromecastCommunication) :
  tls_read_script (m_tls s) = pre ++ Readv_data [] :: rest ->
  keeps_reading i_size pre ->
  0 < i_size ->
  blen (delivered pre) < i_size
  /\ fst (receive NDEBUG i_size i_timeout pb_timeout s)
     = Done (-1, pb_timeout, delivered pre).
Proof.
  intros Hscript Hk Hsz. split; [apply keeps_reading_short; assumption|].
  unfold receive. rewrite Hscript, receive_loop_keeps_reading by exact Hk.
  cbn [receive_loop]. rewrite firstn_nil. reflexivity.
Qed.

Lemma receive_orderly_close_witness :
  keeps_reading 4 [Readv_data [x00; x00]]
  /\ 2 < 4
  /\ fst (receive false 4 6000 false closes) = Done (-1, false, [x00; x00]).
Proof.
  assert (Hk : keeps_reading 4 [Readv_data [x00; x00]])
    by (cbn; repeat split; reflexivity).
  split; [exact Hk|].
  apply (receive_orderly_close false 4 6000 false [Readv_data [x00; x00]] [] closes
           eq_refl Hk eq_refl).
Defined.

(** C8, as the code has it.  In the media descriptor of LOAD the metadata
    block is emitted exactly when a title is resolved, in the order title,
    now playing, now playing of the elementary stream; the block begins
    with [metadataType], 3 when the MIME type begins with "audio" and 0
    otherwise, and with the resolved title; and a music field (artist,
    album, albumArtist, trackNumber, discNumber) is emitted exactly when the
    MIME type begins with "audio", the metadata has a title of its own, and
    the entry of the field is set. *)
Theorem GetMedia_metadata_rules (print_float : float -> string)
    (this : ChromecastCommunication) (i_port : Z) (mime : string)
    (p_meta : option vlc_meta_t) :
  let ss := GetMedia_ss print_float this i_port mime p_meta in
  (emits_metadata ss <-> resolved_title p_meta <> None)
  /\ (forall title,
        resolved_title p_meta = Some title ->
        exists rest,
          ss = [ Lit (quoted "metadata" ++ ":{");
                 Lit (" " ++ quoted "metadataType" ++ ":");
                 Lit (if String.prefix "audio" mime then "3" else "0");
                 Lit ("," ++ quoted "title" ++ ":" ++ dq); Str title; Lit dq ]
               ++ rest)
  /\ (forall key t,
        In (key, t) music_fields ->
        (emits key ss
         <-> String.prefix "audio" mime = true
             /\ meta_entry p_meta vlc_meta_Title <> None
             /\ meta_entry p_meta t <> None)).
Proof.
  cbv zeta. split; [apply metadata_emitted|].
  split; [apply metadata_begins|].
  intros key t Hkey. apply music_field_emitted. exact Hkey.
Qed.

(** C8 as stated fails for a title that is resolved from what is now
    playing: the MIME type is audio, a title is resolved and the metadata
    block is emitted, the artist is set, and no artist field is emitted. *)
Lemma music_fields_need_own_title :
  let ss := GetMedia_ss print_sample idle 8010 "audio/mp3" (Some radio_meta) in
  String.prefix "audio" "audio/mp3" = true
  /\ resolved_title (Some radio_meta) = Some "Radio"%string
  /\ meta_entry (Some radio_meta) vlc_meta_Artist = Some "Artist"%string
  /\ emits_metadata ss
  /\ ~ emits "artist" ss.
Proof.
  cbv zeta. repeat split.
  - left. reflexivity.
  - unfold emits. vm_compute. intros H. split_all.
Qed.

(** C9.  [sendMessage] returns [VLC_SUCCESS] exactly when the whole frame,
    the four bytes of the length and the serialized envelope, went through
    the session; when it got its buffer and less than the whole frame went
    through, a short write or a failed one, it returns [VLC_EGENERIC].  The
    size of the frame is an [int]. *)
Theorem sendMessage_all_or_nothing (msg : CastMessage) (s : ChromecastCommunication) :
  ByteSize msg <= INT_MAX - PACKET_HEADER_LEN ->
  let r := fst (sendMessage msg s) in
  let s' := snd (sendMessage msg s) in
  (r = Done VLC_SUCCESS <-> wire (m_tls s') = wire (m_tls s) ++ frame msg)
  /\ (hd true (heap_script s) = true ->
      wire (m_tls s') <> wire (m_tls s) ++ frame msg -> r = Done VLC_EGENERIC).
Proof.
  intros Hsz. cbv zeta.
  rewrite sendMessage_run, (handed_frame msg Hsz), (frame_len_small msg Hsz).
  pose proof (ByteSize_nonneg msg) as Hnn.
  pose proof (blen_frame msg) as Hlen.
  assert (Hne : frame msg <> []).
  { intros E. rewrite E in Hlen. unfold blen, PACKET_HEADER_LEN in Hlen.
    cbn [List.length] in Hlen. lia. }
  destruct (hd true (heap_script s)); cbn [fst snd m_tls].
  - rewrite wire_app.
    pose proof (write_result_range (tls_write_script (m_tls s)) (frame msg)) as Hw.
    set (w := write_result _ _) in *.
    unfold INT_MAX, PACKET_HEADER_LEN in *.
    rewrite to_int32_small by lia.
    destruct (Z.eqb_spec w (4 + ByteSize msg)) as [E|E].
    + assert (Hall : firstn (Z.to_nat w) (frame msg) = frame msg).
      { apply firstn_all2. unfold blen in Hlen. lia. }
      rewrite Hall. split; [tauto | congruence].
    + assert (Hshort : firstn (Z.to_nat w) (frame msg) <> frame msg).
      { intros Heq. apply (f_equal (@List.length byte)) in Heq.
        rewrite length_firstn in Heq. unfold blen in *. lia. }
      split; [split; intros H | reflexivity].
      * discriminate H.
      * apply app_inv_head in H. contradiction.
  - split; [split; intros H | discriminate].
    + discriminate H.
    + rewrite <- (app_nil_r (wire (m_tls s))) in H at 1.
      apply app_inv_head in H. congruence.
Qed.

Lemma sendMessage_all_or_nothing_witness :
  ByteSize PING_envelope <= INT_MAX - PACKET_HEADER_LEN
  /\ (fst (sendMessage PING_envelope idle) = Done VLC_SUCCESS
      <-> wire (m_tls (snd (sendMessage PING_envelope idle)))
          = wire (m_tls idle) ++ frame PING_envelope).
Proof.
  assert (Hsz : ByteSize PING_envelope <= INT_MAX - PACKET_HEADER_LEN)
    by (vm_compute; discriminate).
  split; [exact Hsz|].
  apply (sendMessage_all_or_nothing PING_envelope idle Hsz).
Defined.

(** C10.  When [msgPlayerSetVolume] is called with a volume below 0.0 or
    above 1.0, the call that is dropped, the state of the client after the
    call is the state before it: the counter of the media-player scope was
    not stepped, and the next call of that scope sends a message that
    carries the id the counter held before the dropped call. *)
Theorem refused_volume_changes_nothing (NDEBUG : bool)
    (print_float : float -> string) (dest : string) (mediaSessionId : Z)
    (f_volume : float) (b_mute : bool) (s : ChromecastCommunication) :
  (f_volume <? 0)%float = true \/ (1 <? f_volume)%float = true ->
  let dropped :=
    msgPlayerSetVolume NDEBUG print_float dest mediaSessionId f_volume b_mute s in
  snd dropped = s
  /\ m_requestId (snd dropped) = m_requestId s
  /\ sent (snd dropped) = sent s
  /\ forall (c : command) (s' : ChromecastCommunication),
       media_scope c = true ->
       call NDEBUG print_float c (snd dropped) = (Done tt, s') ->
       exists m,
         sent s' = sent s ++ [m]
         /\ carries_requestId m (m_requestId s)
         /\ m_requestId s' = to_uint32 (m_requestId s + 1).
Proof.
  intros Hout. cbv zeta.
  assert (E : snd (msgPlayerSetVolume NDEBUG print_float dest mediaSessionId
                     f_volume b_mute s) = s).
  { unfold msgPlayerSetVolume, bind, assert_.
    rewrite (out_of_range_refused f_volume Hout).
    destruct (NDEBUG || negb (mediaSessionId =? 0)); reflexivity. }
  rewrite E. repeat split. intros c s' Hc Hcall.
  apply call_done in Hcall. unfold call_effect in Hcall.
  destruct (receiver_scope c) eqn:Hr.
  - rewrite (receiver_not_media c Hr) in Hc. discriminate Hc.
  - rewrite Hc in Hcall. destruct Hcall as (m & Hs & _ & _ & Hid & Hcnt & _).
    exists m. repeat split; assumption.
Qed.

Lemma refused_volume_changes_nothing_witness :
  (1 <? 2)%float = true
  /\ snd (msgPlayerSetVolume false print_sample "app" 7 2%float false idle) = idle.
Proof.
  assert (H : (1 <? 2)%float = true) by (vm_compute; reflexivity).
  split; [exact H|].
  apply (refused_volume_changes_nothing false print_sample "app" 7 2%float false idle
           (or_intror H)).
Defined.

(* ================================================================== *)
(** * Further properties *)
(* ================================================================== *)

(** X1.  A call of [receive] for at least one byte, the timeout flag
    cleared by the caller, ends in one of three ways: -1 with the flag
    still cleared; the flag set and the count of the bytes read, fewer than
    asked for; or the flag cleared and all the bytes asked for.  A hard
    error never comes with the flag set, and a timeout never as -1.  In a
    build with assertions the call can also stop at the assertion on the
    poll. *)
Theorem receive_outcomes (NDEBUG : bool) (i_size i_timeout : Z)
    (s : ChromecastCommunication) :
  0 < i_size ->
  receive_outcome NDEBUG i_size 0 (fst (receive NDEBUG i_size i_timeout false s)).
Proof.
  intros Hsz. unfold receive.
  pose proof (receive_loop_outcome NDEBUG (tls_read_script (m_tls s)) i_size 0 []
                Hsz eq_refl) as H.
  destruct (receive_loop _ _ _ _ _ _) as [r evs]. exact H.
Qed.

Lemma receive_outcomes_witness :
  0 < 4 /\ receive_outcome false 4 0 (fst (receive false 4 6000 false stalls)).
Proof.
  split; [reflexivity|]. apply (receive_outcomes false 4 6000 stalls eq_refl).
Defined.

(** X2.  When the reads so far kept the loop turning and the next read
    finds at least the bytes still wanted, [receive] returns the number of
    bytes asked for with exactly that many bytes in the buffer and the
    timeout flag as it was; the bytes it did not take stay on the session
    for the next call. *)
Theorem receive_fills_buffer (NDEBUG : bool) (i_size i_timeout : Z)
    (pb_timeout : bool) (pre rest : list readv_event) (bs : list byte)
    (s : ChromecastCommunication) :
  tls_read_script (m_tls s) = pre ++ Readv_data bs :: rest ->
  keeps_reading i_size pre ->
  0 < i_size ->
  i_size - blen (delivered pre) <= blen bs ->
  let wanted := Z.to_nat (i_size - blen (delivered pre)) in
  let data := delivered pre ++ firstn wanted bs in
  receive NDEBUG i_size i_timeout pb_timeout s
  = (Done (i_size, pb_timeout, data),
     set_tls (mk_tls (tls_written (m_tls s)) (tls_write_script (m_tls s))
                (requeue (skipn wanted bs) rest)) s)
  /\ blen data = i_size.
Proof.
  intros Hscript Hk Hsz Hbs. cbv zeta.
  pose proof (keeps_reading_short pre i_size Hk Hsz) as Hshort.
  assert (Hgot : blen (firstn (Z.to_nat (i_size - blen (delivered pre))) bs)
                 = i_size - blen (delivered pre)).
  { unfold blen in *. rewrite length_firstn. lia. }
  split.
  - unfold receive. rewrite Hscript, receive_loop_keeps_reading by exact Hk.
    cbn [receive_loop]. rewrite Hgot.
    destruct (Z.eqb_spec (i_size - blen (delivered pre)) 0) as [E|_]; [lia|].
    rewrite Z.leb_refl, orb_true_r. cbn [negb].
    rewrite Z.sub_diag. cbn [Z.ltb Z.compare app].
    repeat f_equal. lia.
  - rewrite blen_app, Hgot. lia.
Qed.

Lemma receive_fills_buffer_witness :
  keeps_reading 4 []
  /\ fst (receive false 4 6000 false floods) = Done (4, false, [x00; x00; x00; x02])
  /\ tls_read_script (m_tls (snd (receive false 4 6000 false floods)))
     = [Readv_data [x08; x00]].
Proof.
  split; [exact I|].
  pose proof (receive_fills_buffer false 4 6000 false [] []
                [x00; x00; x00; x02; x08; x00] floods eq_refl I eq_refl) as H.
  cbv zeta in H. destruct H as [H _]; [vm_compute; discriminate|].
  rewrite H. split; reflexivity.
Defined.

(** X3.  Round trip of a frame: the buffer [sendMessage] fills for a
    message begins with the length of the serialized message, and the bytes
    after these four parse back to the message, field by field the same.
    The size of the frame, the four bytes and the message, is an [int]: the
    sum that [sendMessage] computes does not overflow. *)
Theorem frame_round_trip (msg : CastMessage) (s : ChromecastCommunication) :
  ByteSize msg <= INT_MAX - PACKET_HEADER_LEN ->
  hd true (heap_script s) = true ->
  exists buf,
    emitted (snd (sendMessage msg s)) = emitted s ++ [buf]
    /\ GetDWBE buf = Some (blen (Serialize msg))
    /\ ParseFromArray (skipn 4 buf) = Some msg.
Proof.
  intros Hsz Hheap. exists (frame msg).
  assert (Hint : ByteSize msg <= INT_MAX) by (unfold PACKET_HEADER_LEN in Hsz; lia).
  split.
  - rewrite <- (handed_frame msg Hsz). apply (after_send_emitted msg s Hheap).
  - unfold frame. split.
    + rewrite GetDWBE_SetDWBE; [rewrite ByteSize_Serialize; reflexivity|].
      pose proof (ByteSize_nonneg msg). unfold INT_MAX in Hint. lia.
    + cbn [SetDWBE app skipn]. apply ParseFromArray_Serialize. exact Hint.
Qed.

Lemma frame_round_trip_witness :
  ByteSize PING_envelope <= INT_MAX - PACKET_HEADER_LEN
  /\ exists buf,
       emitted (snd (sendMessage PING_envelope idle)) = emitted idle ++ [buf]
       /\ GetDWBE buf = Some (blen (Serialize PING_envelope))
       /\ ParseFromArray (skipn 4 buf) = Some PING_envelope.
Proof.
  assert (Hsz : ByteSize PING_envelope <= INT_MAX - PACKET_HEADER_LEN)
    by (vm_compute; discriminate).
  split; [exact Hsz|].
  apply (frame_round_trip PING_envelope idle Hsz eq_refl).
Defined.

(** X4.  The calls outside the two scopes (the device authentication,
    PING, PONG, CONNECT and CLOSE) take no request id: when such a call
    returns, both counters are what they were, and its message is in
    neither the receiver nor the media namespace. *)
Theorem unscoped_calls_keep_counters (NDEBUG : bool) (print_float : float -> string)
    (c : command) (s s' : ChromecastCommunication) :
  receiver_scope c = false ->
  media_scope c = false ->
  call NDEBUG print_float c s = (Done tt, s') ->
  m_receiver_requestId s' = m_receiver_requestId s
  /\ m_requestId s' = m_requestId s
  /\ exists new, sent s' = sent s ++ new /\ Forall unscoped new.
Proof.
  intros Hr Hm Hcall. apply call_done in Hcall. unfold call_effect in Hcall.
  rewrite Hr, Hm in Hcall. destruct Hcall as (new & Hsent & Hun & Hrc & Hmc).
  repeat split; try assumption. exists new. split; assumption.
Qed.

Lemma unscoped_calls_keep_counters_witness :
  m_receiver_requestId (snd (call false print_sample Ping idle)) = 0
  /\ m_requestId (snd (call false print_sample Ping idle)) = 0.
Proof.
  pose proof (unscoped_calls_keep_counters false print_sample Ping idle
                (snd (call false print_sample Ping idle)) eq_refl eq_refl) as H.
  destruct H as (Hr & Hm & _); [vm_compute; reflexivity|].
  split; assumption.
Defined.

(** X5.  The media descriptor of the example: for the MIME type
    "audio/mp3", the title "Song" and the artist "Artist" it holds
    [metadataType] 3 and the artist; for "video/mp4" and the same metadata
    it holds [metadataType] 0 and no artist.  The text is the one the
    function returns for the port 8010 on the local address 192.168.1.2. *)
Theorem media_descriptor_example :
  GetMedia print_sample idle 8010 "audio/mp3" (Some song_meta)
  = (quoted "metadata" ++ ":{ " ++ quoted "metadataType" ++ ":3,"
     ++ quoted "title" ++ ":" ++ quoted "Song" ++ ","
     ++ quoted "artist" ++ ":" ++ quoted "Artist" ++ "},"
     ++ quoted "contentId" ++ ":" ++ quoted "http://192.168.1.2:8010/stream" ++ ","
     ++ quoted "streamType" ++ ":" ++ quoted "LIVE" ++ ","
     ++ quoted "contentType" ++ ":" ++ quoted "audio/mp3")%string
  /\ GetMedia print_sample idle 8010 "video/mp4" (Some song_meta)
     = (quoted "metadata" ++ ":{ " ++ quoted "metadataType" ++ ":0,"
        ++ quoted "title" ++ ":" ++ quoted "Song" ++ "},"
        ++ quoted "contentId" ++ ":" ++ quoted "http://192.168.1.2:8010/stream" ++ ","
        ++ quoted "streamType" ++ ":" ++ quoted "LIVE" ++ ","
        ++ quoted "contentType" ++ ":" ++ quoted "video/mp4")%string
  /\ emits "artist" (GetMedia_ss print_sample idle 8010 "audio/mp3" (Some song_meta))
  /\ ~ emits "artist" (GetMedia_ss print_sample idle 8010 "video/mp4" (Some song_meta)).
Proof.
  split; [vm_compute; reflexivity|]. split; [vm_compute; reflexivity|]. split.
  - apply (music_field_emitted print_sample idle "artist" vlc_meta_Artist).
    + left. reflexivity.
    + repeat split; discriminate.
  - intros H.
    apply (music_field_emitted print_sample idle "artist" vlc_meta_Artist) in H.
    + destruct H as [H _]. discriminate H.
    + left. reflexivity.
Qed.

(** X6.  Whatever the calls made on a client from its construction on, and
    whether or not the run stops at an assertion, every message handed to
    [sendMessage] has the source id "sender-vlc", and every buffer handed to
    the session is the frame of one of these messages: its length on four
    bytes, big-endian, then its serialization (the size of each frame, the
    four bytes and the message, being an [int]: the sum that [sendMessage]
    computes does not overflow). *)
Theorem run_emits_frames (NDEBUG : bool) (print_float : float -> string)
    (cs : list command) (localIP : string) (heap : list bool)
    (ws : list write_event) (rs : list readv_event) :
  let s' := snd (run NDEBUG print_float cs (constructed (mk_tls [] ws rs) localIP heap)) in
  Forall (fun m => source_id m = "sender-vlc"%string) (sent s')
  /\ (Forall (fun m => ByteSize m <= INT_MAX - PACKET_HEADER_LEN) (sent s') ->
      Forall (fun buf => exists m, In m (sent s') /\ frame_of (Serialize m) buf)
        (emitted s')).
Proof.
  cbv zeta.
  destruct (only_frames_run NDEBUG print_float cs
              (constructed (mk_tls [] ws rs) localIP heap))
    as (new & bufs & Hsent & Hem & Hsrc & Hfr).
  cbn [constructed sent emitted m_tls tls_written List.map app] in Hsent, Hem.
  unfold emitted in Hem |- *. rewrite Hsent, Hem. split; [exact Hsrc|].
  intros Hsz. rewrite Forall_forall in Hsz.
  eapply Forall_impl; [|exact Hfr]. intros buf (m & Hin & ->).
  exists m. split; [exact Hin|]. specialize (Hsz m Hin). cbv beta in Hsz.
  rewrite (handed_frame m Hsz). apply frame_is_frame.
  unfold PACKET_HEADER_LEN in Hsz. lia.
Qed.

(** X7.  The artwork of the media descriptor: the [images] field is
    emitted exactly when a title is resolved, the metadata has an artwork
    URL and that URL begins with "http", whatever the MIME type; it then
    holds the URL as it is and closes the metadata block. *)
Theorem artwork_needs_http (print_float : float -> string)
    (this : ChromecastCommunication) (i_port : Z) (mime : string)
    (p_meta : option vlc_meta_t) :
  (emits_images (GetMedia_ss print_float this i_port mime p_meta)
   <-> resolved_title p_meta <> None
       /\ exists url, meta_entry p_meta vlc_meta_ArtworkURL = Some url
                      /\ String.prefix "http" url = true)
  /\ forall url,
       resolved_title p_meta <> None ->
       meta_entry p_meta vlc_meta_ArtworkURL = Some url ->
       String.prefix "http" url = true ->
       exists pre,
         GetMedia_metadata mime p_meta
         = pre ++ [ Lit ("," ++ quoted "images" ++ ":[{" ++ quoted "url" ++ ":" ++ dq);
                    Str url; Lit (dq ++ "}]"); Lit "}," ].
Proof.
  split; [apply artwork_emitted|].
  intros url. apply artwork_last.
Qed.

(** X8.  Every media descriptor ends with the three fields of the stream:
    [contentId], the URL of the stream on the local address and the port
    given, [streamType] LIVE, and [contentType], the MIME type.  When there
    is no metadata, or none of title, now playing and now playing of the
    elementary stream is set, the descriptor is these three fields and
    nothing else, whatever the other entries. *)
Theorem GetMedia_stream_fields (print_float : float -> string)
    (this : ChromecastCommunication) (i_port : Z) (mime : string)
    (p_meta : option vlc_meta_t) :
  GetMedia print_float this i_port mime p_meta
  = (str print_float (GetMedia_metadata mime p_meta)
     ++ stream_fields (m_serverIp this) i_port mime)%string
  /\ (resolved_title p_meta = None ->
      GetMedia print_float this i_port mime p_meta
      = stream_fields (m_serverIp this) i_port mime).
Proof.
  split; [apply GetMedia_split|].
  intros Hnone. rewrite GetMedia_split, (metadata_none mime p_meta Hnone).
  reflexivity.
Qed.

(** X9.  The entries of the metadata go into the descriptor as they are,
    no character is escaped: for a music track, a title and an artist give
    the very text that a title alone gives which holds a double quote and
    the artist field after it. *)
Theorem metadata_copied_verbatim (print_float : float -> string)
    (this : ChromecastCommunication) (i_port : Z) (mime : string)
    (m : vlc_meta_t) (title artist : string) :
  String.prefix "audio" mime = true ->
  m vlc_meta_Title = Some title ->
  m vlc_meta_Artist = Some artist ->
  let forged := (title ++ dq ++ "," ++ quoted "artist" ++ ":" ++ dq ++ artist)%string in
  let m' := with_entry (with_entry m vlc_meta_Artist None) vlc_meta_Title (Some forged) in
  m' vlc_meta_Artist = None
  /\ GetMedia print_float this i_port mime (Some m)
     = GetMedia print_float this i_port mime (Some m').
Proof.
  intros Hmime Ht Ha. cbv zeta. split; [reflexivity|].
  apply GetMedia_verbatim; assumption.
Qed.

Lemma metadata_copied_verbatim_witness :
  let forged := ("Song" ++ dq ++ "," ++ quoted "artist" ++ ":" ++ dq ++ "Artist")%string in
  let m' :=
    with_entry (with_entry song_meta vlc_meta_Artist None) vlc_meta_Title
      (Some forged) in
  m' vlc_meta_Artist = None
  /\ GetMedia print_sample idle 8010 "audio/mp3" (Some song_meta)
     = GetMedia print_sample idle 8010 "audio/mp3" (Some m').
Proof.
  apply (metadata_copied_verbatim print_sample idle 8010 "audio/mp3" song_meta
           "Song" "Artist"); reflexivity.
Defined.

(** X10.  Whatever the calls made on a client, and whether or not the run
    stops at an assertion, every message handed to [sendMessage] is well
    formed: the protocol version is CASTV2_1_0, the namespace is one of the
    five, the payload is binary for the device authentication and a text
    otherwise, it sits in the field of its kind while the other field is not
    set, and what goes to the device authentication, the heartbeat or the
    receiver namespace is addressed to "receiver-0". *)
Theorem run_sends_well_formed (NDEBUG : bool) (print_float : float -> string)
    (cs : list command) (s : ChromecastCommunication) :
  exists new,
    sent (snd (run NDEBUG print_float cs s)) = sent s ++ new
    /\ Forall well_formed new.
Proof.
  destruct (run_built NDEBUG print_float cs s) as (new & Hsent & Hall).
  exists new. split; [exact Hsent|].
  eapply Forall_impl; [|exact Hall]. apply built_well_formed.
Qed.

(** X11.  In a build with assertions no message of the media namespace
    leaves with an empty destination, whatever the calls: the call stops at
    the assertion of [pushMediaPlayerMessage].  In a build with [NDEBUG]
    such a message is handed to [sendMessage]. *)
Theorem media_destination_asserted (print_float : float -> string)
    (cs : list command) (s : ChromecastCommunication) :
  (exists new,
     sent (snd (run false print_float cs s)) = sent s ++ new
     /\ Forall (fun m => in_namespace NAMESPACE_MEDIA m = true ->
                         destination_id m <> ""%string) new)
  /\ exists payload,
       sent (snd (call true print_float (PlayerGetStatus "") s))
       = sent s ++ [text_message NAMESPACE_MEDIA payload ""].
Proof.
  split.
  - destruct (run_built false print_float cs s) as (new & Hsent & Hall).
    exists new. split; [exact Hsent|].
    eapply Forall_impl; [|exact Hall]. cbv beta.
    intros m [-> | [(p & ->) | [(p & ->) | [(p & d & ->) | (p & d & -> & Hd)]]]];
      unfold in_namespace;
      cbn [namespace_ destination_id text_message binary_message].
    1-4: intros H; vm_compute in H; discriminate H.
    intros _. apply Hd. reflexivity.
  - cbn [call]. unfold msgPlayerGetStatus, bind, next_requestId.
    rewrite pushMediaPlayerMessage_run. cbn [orb snd].
    eexists. rewrite after_send_sent. reflexivity.
Qed.

(** X12.  A command does not tell its caller that the message was never
    sent: when the buffer of [sendMessage] cannot be allocated, a call that
    returns has handed nothing to the session, and has all the same done to
    the counters and to the record of the messages what a call does whose
    message goes through; a request id is used up. *)
Theorem failed_allocation_is_silent (NDEBUG : bool) (print_float : float -> string)
    (c : command) (s s' : ChromecastCommunication) :
  hd true (heap_script s) = false ->
  call NDEBUG print_float c s = (Done tt, s') ->
  m_tls s' = m_tls s /\ emitted s' = emitted s /\ call_effect c s s'.
Proof.
  intros Hheap Hcall. pose proof (call_done _ _ _ _ _ Hcall) as Heff.
  assert (Htls : m_tls s' = m_tls s).
  { destruct (call_shape_holds NDEBUG print_float c s)
      as [(_ & Hf & _) | [E | (m & s1 & E & _ & Htls & Hh & _)]];
      rewrite Hcall in *.
    - discriminate Hf.
    - injection E as ->. reflexivity.
    - injection E as ->.
      rewrite after_send_refused; [exact Htls | rewrite Hh; exact Hheap]. }
  unfold emitted. rewrite Htls. repeat split. exact Heff.
Qed.

Lemma failed_allocation_is_silent_witness :
  let s' := snd (call false print_sample ReceiverGetStatus starved) in
  m_tls s' = m_tls starved /\ emitted s' = emitted starved
  /\ call_effect ReceiverGetStatus starved s'.
Proof.
  apply (failed_allocation_is_silent false print_sample ReceiverGetStatus starved);
    vm_compute; reflexivity.
Defined.

(** X13.  [receive] loses no byte and reads none twice: whenever it
    returns, with all the bytes, on a timeout or on an error, the bytes in
    its buffer followed by what the session still delivers are what the
    session delivered before the call.  It never clears the timeout flag,
    and it hands nothing to the session. *)
Theorem receive_loses_no_byte (NDEBUG : bool) (i_size i_timeout : Z)
    (pb_timeout : bool) (s s' : ChromecastCommunication)
    (ret : Z) (flag : bool) (data : list byte) :
  receive NDEBUG i_size i_timeout pb_timeout s = (Done (ret, flag, data), s') ->
  data ++ incoming s' = incoming s
  /\ (pb_timeout = true -> flag = true)
  /\ emitted s' = emitted s
  /\ sent s' = sent s.
Proof.
  unfold receive, incoming.
  destruct (receive_loop _ _ _ _ _ _) as [r evs] eqn:E.
  intros [= -> <-]. apply receive_loop_conserves in E. destruct E as [E Hflag].
  cbn [m_tls set_tls tls_read_script]. repeat split; assumption.
Qed.

Lemma receive_loses_no_byte_witness :
  let s' := snd (receive false 4 6000 false stalls) in
  [x00; x00] ++ incoming s' = incoming stalls
  /\ (false = true -> true = true)
  /\ emitted s' = emitted stalls
  /\ sent s' = sent stalls.
Proof.
  apply (receive_loses_no_byte false 4 6000 false stalls
           (snd (receive false 4 6000 false stalls)) 2 true [x00; x00]).
  vm_compute. reflexivity.
Defined.

(** X14.  However the reads cut the stream: on a session on which no read
    fails for good and which delivers at least the bytes asked for,
    [receive] returns the number of bytes asked for, the buffer holds the
    first that many bytes of the stream, the timeout flag is as the caller
    set it, and the session goes on to deliver the rest of the stream. *)
Theorem receive_any_chunking (NDEBUG : bool) (i_size i_timeout : Z)
    (pb_timeout : bool) (s : ChromecastCommunication) :
  lively (tls_read_script (m_tls s)) ->
  0 < i_size ->
  i_size <= blen (incoming s) ->
  exists s',
    receive NDEBUG i_size i_timeout pb_timeout s
    = (Done (i_size, pb_timeout, firstn (Z.to_nat i_size) (incoming s)), s')
    /\ lively (tls_read_script (m_tls s'))
    /\ incoming s' = skipn (Z.to_nat i_size) (incoming s).
Proof. apply receive_exact. Qed.

Lemma receive_any_chunking_witness :
  exists s',
    receive false 4 6000 false chopped
    = (Done (4, false, firstn 4 (incoming chopped)), s')
    /\ lively (tls_read_script (m_tls s'))
    /\ incoming s' = skipn 4 (incoming chopped).
Proof.
  apply (receive_any_chunking false 4 6000 false chopped).
  - vm_compute. repeat split; discriminate.
  - reflexivity.
  - vm_compute. discriminate.
Defined.

(** X15.  A frame that [sendMessage] fills is read back by two calls of
    [receive], however the reads cut it: on a session on which no read fails
    for good and which delivers the frame of a message and then more, the
    call for the four bytes of the header returns them, and they hold the
    size of the message; the call for that many bytes returns the body,
    which parses to the message; and what follows the frame is left on the
    session.  The size of the message is an [int]. *)
Theorem frame_read_back (NDEBUG : bool) (i_timeout : Z) (pb_timeout : bool)
    (msg : CastMessage) (more : list byte) (s : ChromecastCommunication) :
  lively (tls_read_script (m_tls s)) ->
  incoming s = frame msg ++ more ->
  ByteSize msg <= INT_MAX ->
  exists hdr body s1 s2,
    receive NDEBUG PACKET_HEADER_LEN i_timeout pb_timeout s
    = (Done (PACKET_HEADER_LEN, pb_timeout, hdr), s1)
    /\ GetDWBE hdr = Some (ByteSize msg)
    /\ receive NDEBUG (ByteSize msg) i_timeout pb_timeout s1
       = (Done (ByteSize msg, pb_timeout, body), s2)
    /\ ParseFromArray body = Some msg
    /\ incoming s2 = more
    /\ lively (tls_read_script (m_tls s2)).
Proof.
  intros Hl Hin Hsz.
  pose proof (ByteSize_pos msg) as Hpos.
  pose proof (ByteSize_Serialize msg) as Hlen.
  assert (Hmore : 0 <= blen more) by (unfold blen; lia).
  destruct (receive_exact NDEBUG PACKET_HEADER_LEN i_timeout pb_timeout s Hl eq_refl)
    as (s1 & H1 & Hl1 & Hd1).
  { rewrite Hin, blen_app, blen_frame. lia. }
  rewrite Hin in H1, Hd1. unfold frame in H1, Hd1. rewrite <- app_assoc in H1, Hd1.
  change (incoming s1 = Serialize msg ++ more) in Hd1.
  change (firstn _ _) with (SetDWBE (ByteSize msg)) in H1.
  destruct (receive_exact NDEBUG (ByteSize msg) i_timeout pb_timeout s1 Hl1 Hpos)
    as (s2 & H2 & Hl2 & Hd2).
  { rewrite Hd1, blen_app, <- Hlen. lia. }
  assert (Hn : Z.to_nat (ByteSize msg) = List.length (Serialize msg))
    by (rewrite Hlen; unfold blen; lia).
  rewrite Hd1, Hn in H2, Hd2.
  rewrite firstn_app, firstn_all, Nat.sub_diag in H2.
  rewrite skipn_app, skipn_all, Nat.sub_diag in Hd2.
  cbn [firstn skipn app] in H2, Hd2. rewrite app_nil_r in H2.
  exists (SetDWBE (ByteSize msg)), (Serialize msg), s1, s2.
  split; [exact H1|]. split.
  - rewrite <- (app_nil_r (SetDWBE _)).
    apply GetDWBE_SetDWBE. unfold INT_MAX in Hsz. lia.
  - split; [exact H2|].
    split; [apply ParseFromArray_Serialize; exact Hsz|]. split; assumption.
Qed.

Lemma frame_read_back_witness :
  exists hdr body s1 s2,
    receive false PACKET_HEADER_LEN 6000 false chopped
    = (Done (PACKET_HEADER_LEN, false, hdr), s1)
    /\ GetDWBE hdr = Some (ByteSize PING_envelope)
    /\ receive false (ByteSize PING_envelope) 6000 false s1
       = (Done (ByteSize PING_envelope, false, body), s2)
    /\ ParseFromArray body = Some PING_envelope
    /\ incoming s2 = [x00; x00]
    /\ lively (tls_read_script (m_tls s2)).
Proof.
  apply (frame_read_back false 6000 false PING_envelope [x00; x00] chopped).
  - vm_compute. repeat split; discriminate.
  - vm_compute. reflexivity.
  - vm_compute. discriminate.
Defined.

(** X16.  On a session that lets every write through, and while every
    buffer is allocated, the bytes that went through the session during a
    run are the frames of the messages handed to [sendMessage], one after
    the other in the order of the calls, and nothing else: the stream can be
    cut back into its frames by their lengths.  The size of each frame, the
    four bytes and the message, is an [int]: the sum that [sendMessage]
    computes does not overflow. *)
Theorem wire_is_frames (NDEBUG : bool) (print_float : float -> string)
    (cs : list command) (s : ChromecastCommunication) :
  heap_script s = [] ->
  tls_write_script (m_tls s) = [] ->
  exists new,
    sent (snd (run NDEBUG print_float cs s)) = sent s ++ new
    /\ (Forall (fun m => ByteSize m <= INT_MAX - PACKET_HEADER_LEN) new ->
        wire (m_tls (snd (run NDEBUG print_float cs s)))
        = wire (m_tls s) ++ flat_map frame new).
Proof.
  intros Hh Hw.
  destruct (run_wire NDEBUG print_float cs s Hh Hw) as (new & Hsent & Hwire).
  exists new. split; [exact Hsent|].
  intros Hsz. rewrite Hwire, (flat_map_handed new Hsz). reflexivity.
Qed.

Lemma wire_is_frames_witness :
  let s' := snd (run false print_sample interleaved idle) in
  Forall (fun m => ByteSize m <= INT_MAX - PACKET_HEADER_LEN) (sent s')
  /\ wire (m_tls s') = flat_map frame (sent s').
Proof.
  cbv zeta.
  assert (Hsz : Forall (fun m => ByteSize m <= INT_MAX - PACKET_HEADER_LEN)
                  (sent (snd (run false print_sample interleaved idle)))).
  { remember (sent (snd (run false print_sample interleaved idle))) as l eqn:E.
    vm_compute in E. subst l.
    repeat (apply Forall_cons; [vm_compute; discriminate|]). apply Forall_nil. }
  split; [exact Hsz|].
  destruct (wire_is_frames false print_sample interleaved idle eq_refl eq_refl)
    as (new & Hsent & Hwire).
  cbn [idle constructed sent app] in Hsent. rewrite Hsent in Hsz |- *.
  exact (Hwire Hsz).
Defined.

(** X17.  The request ids beyond the range of the counters: in every run
    from the construction on that returns, the k-th message of the receiver
    scope and the k-th message of the media-player scope (k from 0) carry
    the id k modulo 2^32, the counters being [unsigned]; so an id comes
    again after 2^32 requests of a scope. *)
Theorem request_ids_wrap (NDEBUG : bool) (print_float : float -> string)
    (cs : list command) (tls : vlc_tls_t) (localIP : string) (heap : list bool)
    (s' : ChromecastCommunication) :
  run NDEBUG print_float cs (constructed tls localIP heap) = (Done tt, s') ->
  Forall2 carries_requestId
    (List.filter (in_namespace NAMESPACE_RECEIVER) (sent s'))
    (wrapped_ids (count receiver_scope cs))
  /\ Forall2 carries_requestId
       (List.filter (in_namespace NAMESPACE_MEDIA) (sent s'))
       (wrapped_ids (count media_scope cs)).
Proof.
  intros Hrun. apply run_ids in Hrun. destruct Hrun as (new & Hsent & Hr & Hm).
  cbn [constructed sent m_receiver_requestId m_requestId app] in *.
  rewrite Hsent. unfold wrapped_ids.
  change 0 with (to_uint32 0) in Hr, Hm. rewrite ids_from_wrap in Hr, Hm.
  split; assumption.
Qed.

Lemma request_ids_wrap_witness :
  Forall2 carries_requestId
    (List.filter (in_namespace NAMESPACE_RECEIVER)
       (sent (snd (run false print_sample interleaved idle))))
    (wrapped_ids (count receiver_scope interleaved))
  /\ Forall2 carries_requestId
       (List.filter (in_namespace NAMESPACE_MEDIA)
          (sent (snd (run false print_sample interleaved idle))))
       (wrapped_ids (count media_scope interleaved)).
Proof.
  apply (request_ids_wrap false print_sample interleaved fresh_tls "192.168.1.2" []
           (snd (run false print_sample interleaved idle))).
  vm_compute. reflexivity.
Defined.

(** X18.  The outcomes of the constructor.  It connects to the port given,
    or to the control port of the Chromecast when the port given is 0.  It
    returns an object only when the credentials, the session and the local
    address were all obtained: both pointers are set, both counters are 0
    and [m_serverIp] is the local address, so the commands start from the
    constructed state.  Otherwise it throws, with a message of its own for
    each of the three failures.  When the credentials or the session are
    refused, nothing stays allocated; when the local address is not found,
    the exception leaves with the session open and the credentials
    allocated. *)
Theorem constructor_outcomes (core : Lifetime.vlc_core) (targetIP : string)
    (devicePort : Z) :
  let port := if devicePort =? 0 then CHROMECAST_CONTROL_PORT else devicePort in
  let core' := snd (Lifetime.constructor core targetIP devicePort) in
  match fst (Lifetime.constructor core targetIP devicePort) with
  | Lifetime.Constructed this =>
      exists tls ip,
        Lifetime.credentials core = true
        /\ Lifetime.listening core targetIP port = Some tls
        /\ Lifetime.local_address core = Some ip
        /\ Lifetime.m_creds this <> None
        /\ Lifetime.m_tls this = Some tls
        /\ (forall heap,
              Lifetime.client this heap = Some (constructed tls ip heap))
        /\ Lifetime.holds_more core core' 1
  | Lifetime.Thrown what =>
      (what = "Failed to create TLS client"%string
       /\ Lifetime.credentials core = false
       /\ Lifetime.holds_more core core' 0)
      \/ (what = "Failed to create client session"%string
          /\ Lifetime.credentials core = true
          /\ Lifetime.listening core targetIP port = None
          /\ Lifetime.holds_more core core' 0)
      \/ (what = "Cannot get local IP address"%string
          /\ Lifetime.credentials core = true
          /\ Lifetime.listening core targetIP port <> None
          /\ Lifetime.local_address core = None
          /\ Lifetime.holds_more core core' 1)
  end.
Proof.
  cbv zeta. rewrite constructor_run. cbv zeta.
  destruct (Lifetime.credentials core).
  2:{ left. do 2 (split; [reflexivity|]). apply holds_more_after; reflexivity. }
  destruct (Lifetime.listening core targetIP _) as [tls|].
  2:{ right. left. do 3 (split; [reflexivity|]).
      apply holds_more_after; reflexivity. }
  destruct (Lifetime.local_address core) as [ip|]; cbn [fst snd].
  - exists tls, ip. do 3 (split; [reflexivity|]). split; [discriminate|].
    split; [reflexivity|]. split; [intros heap; reflexivity|].
    apply holds_more_after; reflexivity.
  - right. right. do 2 (split; [reflexivity|]). split; [discriminate|].
    split; [reflexivity|]. apply holds_more_after; reflexivity.
Qed.

(** X19.  The teardown releases what the constructor obtained, once: after
    a construction that returned, calling [disconnect] any number of times
    and then destroying the object closes the session once and then deletes
    the credentials once, and makes no other call; what the core holds
    afterwards is what it held before the construction.  A [disconnect]
    after the first one does nothing. *)
Theorem teardown_releases_once (core core1 : Lifetime.vlc_core) (targetIP : string)
    (devicePort : Z) (this : Lifetime.object) (n : nat) :
  Lifetime.constructor core targetIP devicePort = (Lifetime.Constructed this, core1) ->
  let core2 :=
    (let (this', core') := Lifetime.disconnects n this core1 in
     Lifetime.destructor this' core') in
  Lifetime.calls core2 = Lifetime.calls core1 ++ [Lifetime.Close; Lifetime.Delete]
  /\ Lifetime.holds_more core core2 0
  /\ let (this1, core') := Lifetime.disconnect this core1 in
     Lifetime.m_tls this1 = None
     /\ Lifetime.disconnect this1 core' = (this1, core').
Proof.
  intros Hc. cbv zeta. rewrite teardown_once.
  split; [|split; [|apply disconnect_twice]].
  all: rewrite constructor_run in Hc; cbv zeta in Hc.
  all: destruct (Lifetime.credentials core); [|discriminate Hc].
  all: destruct (Lifetime.listening core targetIP _) as [tls|]; [|discriminate Hc].
  all: destruct (Lifetime.local_address core) as [ip|]; [|discriminate Hc].
  all: injection Hc as <- <-.
  all: unfold Lifetime.disconnect, Lifetime.log;
    cbn [Lifetime.m_tls snd Lifetime.calls Lifetime.credentials Lifetime.listening
         Lifetime.local_address].
  - rewrite <- !app_assoc. reflexivity.
  - rewrite <- !app_assoc. apply holds_more_after; reflexivity.
Qed.

Lemma teardown_releases_once_witness :
  let core1 := snd (Lifetime.constructor obliging "192.168.1.9" 0) in
  let core2 :=
    (let (this', core') :=
       Lifetime.disconnects 2
         (Lifetime.mk_object (Some tt) (Some fresh_tls) 0 0 "192.168.1.2") core1 in
     Lifetime.destructor this' core') in
  Lifetime.calls core2
  = [ Lifetime.ClientCreate true;
      Lifetime.SocketOpenTLS "192.168.1.9" CHROMECAST_CONTROL_PORT true;
      Lifetime.GetSockAddress true; Lifetime.Close; Lifetime.Delete ]
  /\ Lifetime.holds_more obliging core2 0.
Proof.
  cbv zeta.
  pose proof (teardown_releases_once obliging
                (snd (Lifetime.constructor obliging "192.168.1.9" 0)) "192.168.1.9" 0
                (Lifetime.mk_object (Some tt) (Some fresh_tls) 0 0 "192.168.1.2") 2
                eq_refl) as H.
  cbv zeta in H. destruct H as (Hcalls & Hheld & _).
  split; [exact Hcalls | exact Hheld].
Defined.

(** X20.  When a call stops at an assertion: exactly when the build has
    assertions and the call is misused, that is, it names the media session
    0 (PLAY, STOP, PAUSE, SET_VOLUME and SEEK check it first, SET_VOLUME
    before it looks at the volume), or it is a call of the media-player
    scope that puts a message together for an empty destination.  The calls
    of the other scopes never stop.  A call that stops has handed nothing to
    [sendMessage] nor to the session. *)
Theorem call_stops_iff (NDEBUG : bool) (print_float : float -> string)
    (c : command) (s : ChromecastCommunication) :
  (fst (call NDEBUG print_float c s) = Aborted
   <-> NDEBUG = false /\ misused c = true)
  /\ (fst (call NDEBUG print_float c s) = Aborted ->
      sent (snd (call NDEBUG print_float c s)) = sent s
      /\ m_tls (snd (call NDEBUG print_float c s)) = m_tls s).
Proof.
  split; [apply call_stops|].
  destruct (call_shape_holds NDEBUG print_float c s)
    as [(_ & _ & Htls & _ & Hsent) | [-> | (m & s1 & -> & _)]].
  - intros _. split; assumption.
  - discriminate.
  - discriminate.
Qed.
